(** * Nova player: subtitle parsing, chapter navigation, overlays and teardown

    A shallow embedding of the logic of [components/Player.tsx] (the [Player]
    component and its helper [parseSRT]) together with the host primitives it
    calls (string methods, [Number], [parseInt], timers), followed by the
    properties of that logic.

    Conventions of the embedding.
    - A JavaScript string is a [string]: a sequence of code units, here the
      code units below 256 (one [ascii] each, Latin-1 reading).
    - A JavaScript number is a [number]: NaN, the two infinities, or an exact
      rational.  Rounding to binary64, overflow and the sign of zero are not
      part of the model; comparisons and the arithmetic of NaN and of the
      infinities follow IEEE 754 as JavaScript does.  The theorems that
      speak of computed values are stated so as to hold of binary64 as
      well: they give bounds, or the value of the expression on numbers,
      or the exact rational only where binary64 computes it exactly; the
      lemmas behind them are facts of the model.
    - [undefined] is [None]; an operation that raises a [TypeError] in
      JavaScript (a method call on [undefined]) is [Throw]. *)

From Stdlib Require Import List String Ascii Bool Arith NArith ZArith QArith.
From Stdlib Require Import Qabs.
From Stdlib Require Import Lia Lqa DecimalString Permutation Sorted.
Import ListNotations.

Local Close Scope Q_scope.
Local Open Scope string_scope.
Local Open Scope list_scope.

(* ================================================================== *)
(** * Host primitives *)
(* ================================================================== *)

Module JS.

(** ** Completion records: a value or a thrown exception *)

Inductive result (A : Type) : Type :=
| Ok (a : A)
| Throw.
Arguments Ok {A} a.
Arguments Throw {A}.

Definition bind {A B} (r : result A) (k : A -> result B) : result B :=
  match r with
  | Ok a => k a
  | Throw => Throw
  end.

Notation "x <- r ;; k" := (bind r (fun x => k))
  (at level 61, r at next level, right associativity).

(** Property access on a possibly-undefined receiver. *)
Definition deref {A} (o : option A) : result A :=
  match o with
  | Some a => Ok a
  | None => Throw
  end.

(** ** Numbers *)

Inductive number : Type :=
| NaN
| PInf
| NInf
| Fin (q : Q).

Definition Qlt_bool (q r : Q) : bool := negb (Qle_bool r q).

Definition isNaN (a : number) : bool :=
  match a with
  | NaN => true
  | _ => false
  end.

Definition neg (a : number) : number :=
  match a with
  | NaN => NaN
  | PInf => NInf
  | NInf => PInf
  | Fin q => Fin (- q)%Q
  end.

Definition add (a b : number) : number :=
  match a, b with
  | NaN, _ | _, NaN => NaN
  | PInf, NInf | NInf, PInf => NaN
  | PInf, _ | _, PInf => PInf
  | NInf, _ | _, NInf => NInf
  | Fin q, Fin r => Fin (q + r)%Q
  end.

Definition sub (a b : number) : number := add a (neg b).

(** [sgn q] is the sign of a rational: [Lt], [Eq] or [Gt]. *)
Definition sgn (q : Q) : comparison := (Qnum q ?= 0)%Z.

Definition inf_of (s : comparison) (flip : bool) : number :=
  match s with
  | Eq => NaN
  | Gt => if flip then NInf else PInf
  | Lt => if flip then PInf else NInf
  end.

Definition mul (a b : number) : number :=
  match a, b with
  | NaN, _ | _, NaN => NaN
  | PInf, PInf | NInf, NInf => PInf
  | PInf, NInf | NInf, PInf => NInf
  | PInf, Fin q | Fin q, PInf => inf_of (sgn q) false
  | NInf, Fin q | Fin q, NInf => inf_of (sgn q) true
  | Fin q, Fin r => Fin (q * r)%Q
  end.

Definition div (a b : number) : number :=
  match a, b with
  | NaN, _ | _, NaN => NaN
  | (PInf | NInf), (PInf | NInf) => NaN
  | Fin _, (PInf | NInf) => Fin 0%Q
  | PInf, Fin r => match sgn r with Lt => NInf | _ => PInf end
  | NInf, Fin r => match sgn r with Lt => PInf | _ => NInf end
  | Fin q, Fin r =>
      match sgn r with
      | Eq => inf_of (sgn q) false
      | _ => Fin (q / r)%Q
      end
  end.

(** [a < b]; false as soon as one side is NaN. *)
Definition lt (a b : number) : bool :=
  match a, b with
  | NaN, _ | _, NaN => false
  | _, NInf => false
  | NInf, _ => true
  | PInf, _ => false
  | _, PInf => true
  | Fin q, Fin r => Qlt_bool q r
  end.

(** [a <= b]; false as soon as one side is NaN. *)
Definition le (a b : number) : bool :=
  match a, b with
  | NaN, _ | _, NaN => false
  | NInf, _ => true
  | _, PInf => true
  | _, NInf => false
  | PInf, _ => false
  | Fin q, Fin r => Qle_bool q r
  end.

Definition gt (a b : number) : bool := lt b a.
Definition ge (a b : number) : bool := le b a.

(** [a === 0]. *)
Definition is_zero (a : number) : bool :=
  match a with
  | Fin q => Qeq_bool q 0%Q
  | _ => false
  end.

Definition of_Z (z : Z) : number := Fin (inject_Z z).
Definition of_N (n : N) : number := of_Z (Z.of_N n).

(** ToNumber of a possibly-undefined number: [undefined] becomes NaN. *)
Definition to_number (o : option number) : number :=
  match o with
  | Some a => a
  | None => NaN
  end.

(** ** Characters *)

Definition LF : ascii := "010"%char.
Definition CR : ascii := "013"%char.

(** WhiteSpace and LineTerminator code units (below 256): TAB, LF, VT, FF,
    CR, SP and NBSP.  This is the set [trim], [Number] and [parseInt] use. *)
Definition is_ws (c : ascii) : bool :=
  match N_of_ascii c with
  | 9%N | 10%N | 11%N | 12%N | 13%N | 32%N | 160%N => true
  | _ => false
  end.

(** The value of a decimal digit, [\d]. *)
Definition digit_val (c : ascii) : option N :=
  let n := N_of_ascii c in
  if (48 <=? n)%N && (n <=? 57)%N then Some (n - 48)%N else None.

Definition is_digit (c : ascii) : bool :=
  match digit_val c with
  | Some _ => true
  | None => false
  end.

(** The value of a digit in radix 16 (which covers radix 2 and 8). *)
Definition hex_val (c : ascii) : option N :=
  let n := N_of_ascii c in
  if (48 <=? n)%N && (n <=? 57)%N then Some (n - 48)%N
  else if (65 <=? n)%N && (n <=? 70)%N then Some (n - 55)%N
  else if (97 <=? n)%N && (n <=? 102)%N then Some (n - 87)%N
  else None.

(** ** String methods *)

Fixpoint trimStart (s : string) : string :=
  match s with
  | String c r => if is_ws c then trimStart r else s
  | EmptyString => EmptyString
  end.

Fixpoint trimEnd (s : string) : string :=
  match s with
  | String c r =>
      let r' := trimEnd r in
      if is_ws c && (r' =? "")%string then "" else String c r'
  | EmptyString => EmptyString
  end.

(** [s.trim()] *)
Definition trim (s : string) : string := trimEnd (trimStart s).

(** [s.replace(/\r\n/g, '\n')] *)
Fixpoint replace_crlf (s : string) : string :=
  match s with
  | String c r =>
      if (c =? CR)%char then
        match r with
        | String d r' =>
            if (d =? LF)%char then String LF (replace_crlf r')
            else String c (replace_crlf r)
        | EmptyString => String c EmptyString
        end
      else String c (replace_crlf r)
  | EmptyString => EmptyString
  end.

(** [s.replace(/\r/g, '\n')] *)
Fixpoint replace_cr (s : string) : string :=
  match s with
  | String c r => String (if (c =? CR)%char then LF else c) (replace_cr r)
  | EmptyString => EmptyString
  end.

(** [s.includes(sub)] *)
Fixpoint includes (sub s : string) : bool :=
  prefix sub s ||
  match s with
  | String _ r => includes sub r
  | EmptyString => false
  end.

(** Prepend a code unit to the piece being collected. *)
Definition push_front (c : ascii) (ps : list string) : list string :=
  match ps with
  | p :: ps' => String c p :: ps'
  | [] => [String c ""]
  end.

(** [s.split(sep)] for a non-empty string [sep]: pieces between the
    occurrences of [sep] found from left to right, without overlap.  [skip]
    counts the code units of an occurrence still to be passed over. *)
Fixpoint split_from (sep : string) (skip : nat) (s : string) : list string :=
  match s with
  | String c r =>
      match skip with
      | S k => split_from sep k r
      | O =>
          if prefix sep s then "" :: split_from sep (String.length sep - 1) r
          else push_front c (split_from sep 0 r)
      end
  | EmptyString => [""]
  end.

Definition split (sep : string) (s : string) : list string :=
  split_from sep 0 s.

(** [s.split(/[...]/)] for a character class given as a predicate. *)
Fixpoint split_class (p : ascii -> bool) (s : string) : list string :=
  match s with
  | String c r =>
      if p c then "" :: split_class p r
      else push_front c (split_class p r)
  | EmptyString => [""]
  end.

(** [lines.join(sep)] *)
Definition join (sep : string) (ls : list string) : string :=
  String.concat sep ls.

(** Every code unit of [s] satisfies [p]. *)
Fixpoint every (p : ascii -> bool) (s : string) : bool :=
  match s with
  | String c r => p c && every p r
  | EmptyString => true
  end.

(** [/^\d+$/] matched against [s]: one or more digits and nothing else. *)
Definition all_digits (s : string) : bool := every is_digit s.

Definition match_digits (s : string) : bool :=
  negb (s =? "")%string && all_digits s.

(** ** The regular expression [/<\/?[^>]+(>|$)/g]  *)

(** Length of the longest prefix free of ['>']: the greedy [[^>]+]. *)
Fixpoint run_not_gt (s : string) : nat :=
  match s with
  | String c r => if (c =? ">")%char then 0 else S (run_not_gt r)
  | EmptyString => 0
  end.

(** [[^>]+(>|$)] anchored at the head of [s]: the length of the match.  After
    the greedy run the next code unit is ['>'] or the end of the string, so
    the first attempt succeeds whenever the run is not empty, and a shorter
    run never does. *)
Definition tag_body (s : string) : option nat :=
  match run_not_gt s with
  | O => None
  | S n =>
      match String.get (S n) s with
      | Some _ => Some (S (S n))
      | None => Some (S n)
      end
  end.

(** The whole expression anchored at the head of [s]: ['<'], then the
    optional ['/'] tried first with and then without the slash. *)
Definition tag_at (s : string) : option nat :=
  match s with
  | String "<" r =>
      match r with
      | String "/" r' =>
          match tag_body r' with
          | Some n => Some (2 + n)
          | None => option_map S (tag_body r)
          end
      | _ => option_map S (tag_body r)
      end
  | _ => None
  end.

(** [s.replace(/<\/?[^>]+(>|$)/g, "")]: every match, found from left to
    right, is removed. *)
Fixpoint strip_from (skip : nat) (s : string) : string :=
  match s with
  | String c r =>
      match skip with
      | S k => strip_from k r
      | O =>
          match tag_at s with
          | Some (S n) => strip_from n r
          | _ => String c (strip_from 0 r)
          end
      end
  | EmptyString => EmptyString
  end.

Definition strip_tags (s : string) : string := strip_from 0 s.

(** ** [Number(s)] and [parseInt(s, 10)] *)

(** Value of a run of digits in radix [b], most significant first; [None]
    when some code unit is not a digit of that radix. *)
Fixpoint radix_val (b : N) (acc : N) (s : string) : option N :=
  match s with
  | String c r =>
      match hex_val c with
      | Some d => if (d <? b)%N then radix_val b (acc * b + d)%N r else None
      | None => None
      end
  | EmptyString => Some acc
  end.

Definition dec_val (s : string) : option N :=
  match s with
  | EmptyString => None
  | _ => radix_val 10 0 s
  end.

(** Split [s] into its longest prefix of decimal digits and the rest. *)
Fixpoint span_digits (s : string) : string * string :=
  match s with
  | String c r =>
      if is_digit c then let (d, t) := span_digits r in (String c d, t)
      else ("", s)
  | EmptyString => ("", "")
  end.

(** A sign prefix: [(negative, rest)]. *)
Definition read_sign (s : string) : bool * string :=
  match s with
  | String "-" r => (true, r)
  | String "+" r => (false, r)
  | _ => (false, s)
  end.

Definition digits_Z (s : string) : Z :=
  match radix_val 10 0 s with
  | Some n => Z.of_N n
  | None => 0%Z
  end.

(** ExponentPart, or the empty string: the decimal exponent. *)
Definition read_exponent (s : string) : option Z :=
  match s with
  | EmptyString => Some 0%Z
  | String c r =>
      if (c =? "e")%char || (c =? "E")%char then
        let (negative, ds) := read_sign r in
        match dec_val ds with
        | Some n => Some (if negative then (- Z.of_N n)%Z else Z.of_N n)
        | None => None
        end
      else None
  end.

(** StrUnsignedDecimalLiteral other than [Infinity]: digits, an optional
    fraction and an optional exponent, with at least one digit in the
    mantissa. *)
Definition unsigned_decimal (s : string) : option Q :=
  let (ip, r1) := span_digits s in
  let (fp, r2) :=
    match r1 with
    | String "." r => span_digits r
    | _ => ("", r1)
    end in
  if (ip =? "")%string && (fp =? "")%string then None
  else
    match read_exponent r2 with
    | Some e =>
        let mant := (digits_Z ip * 10 ^ Z.of_nat (String.length fp)
                     + digits_Z fp)%Z in
        Some (inject_Z mant
              * Qpower 10 (e - Z.of_nat (String.length fp)))%Q
    | None => None
    end.

Definition radix_literal (b : N) (s : string) : number :=
  match s with
  | EmptyString => NaN
  | _ => match radix_val b 0 s with
         | Some n => of_N n
         | None => NaN
         end
  end.

(** StrDecimalLiteral: an optional sign, then [Infinity] or an unsigned
    decimal literal; NaN when [t] is neither. *)
Definition decimal_literal (t : string) : number :=
  let (negative, u) := read_sign t in
  if (u =? "Infinity")%string then (if negative then NInf else PInf)
  else
    match unsigned_decimal u with
    | Some q => Fin (if negative then (- q)%Q else q)
    | None => NaN
    end.

(** StringToNumber: surrounding white space is dropped; the empty string is
    0; then a signed decimal literal or [Infinity], or an unsigned binary,
    octal or hexadecimal literal; anything else is NaN. *)
Definition Number (s : string) : number :=
  let t := trim s in
  match t with
  | EmptyString => Fin 0%Q
  | String "0" (String ("x" | "X") r) => radix_literal 16 r
  | String "0" (String ("o" | "O") r) => radix_literal 8 r
  | String "0" (String ("b" | "B") r) => radix_literal 2 r
  | _ => decimal_literal t
  end.

(** [parseInt(s, 10)]: leading white space, an optional sign, then the
    longest run of decimal digits; NaN when that run is empty. *)
Definition parseInt (s : string) : number :=
  let (negative, u) := read_sign (trimStart s) in
  let (ds, _) := span_digits u in
  match dec_val ds with
  | Some n => of_Z (if negative then (- Z.of_N n)%Z else Z.of_N n)
  | None => NaN
  end.

(** ** [Math.max] and [Math.min] *)

(** NaN as soon as one argument is NaN. *)
Definition Math_max (a b : number) : number :=
  if isNaN a || isNaN b then NaN else if lt a b then b else a.

Definition Math_min (a b : number) : number :=
  if isNaN a || isNaN b then NaN else if lt b a then b else a.

(** ** [String.prototype.toLowerCase] on code units below 256 *)

Definition lower_char (c : ascii) : ascii :=
  let n := N_of_ascii c in
  if ((65 <=? n) && (n <=? 90) || (192 <=? n) && (n <=? 222)
      && negb (n =? 215))%N
  then ascii_of_N (n + 32) else c.

Fixpoint toLowerCase (s : string) : string :=
  match s with
  | String c r => String (lower_char c) (toLowerCase r)
  | EmptyString => EmptyString
  end.

End JS.

(* ================================================================== *)
(** * The player component *)
(* ================================================================== *)

Module Player.
Import JS.

(** ** Subtitle cues and the SRT parser *)

Record SubtitleCue : Type := {
  start : number;
  end_ : number;
  text : string
}.

(** The one-character string of a line feed, and the blank-line separator. *)
Definition NL : string := String LF "".
Definition NLNL : string := String LF (String LF "").

(** The character class [[,.]]. *)
Definition comma_or_dot (c : ascii) : bool :=
  (c =? ",")%char || (c =? ".")%char.

(** The inner helper [parseTime]; its argument is [undefined] when the
    destructured array is too short. *)
Definition parseTime (timeStr : option string) : result number :=
  match timeStr with
  | None | Some EmptyString => Ok (Fin 0%Q)
  | Some timeStr =>
      let parts := split_class comma_or_dot timeStr in
      let msStr := nth_error parts 1 in
      hms <- deref (nth_error parts 0) ;;
      let hms_parts := map Number (split ":" hms) in
      let h := to_number (nth_error hms_parts 0) in
      let m := to_number (nth_error hms_parts 1) in
      let s := to_number (nth_error hms_parts 2) in
      let ms := parseInt (match msStr with
                          | None | Some EmptyString => "0"
                          | Some x => x
                          end) in
      Ok (add (add (add (mul h (of_Z 3600)) (mul m (of_Z 60))) s)
              (div ms (of_Z 1000)))
  end.

(** [timeIndex]: 1 when the first line is an index and the second one
    carries the separator, 0 otherwise. *)
Definition timeIndex (line0 : string) (lines : list string) : nat :=
  if match_digits line0 &&
     match nth_error lines 1 with
     | Some l => includes "-->" l
     | None => false
     end
  then 1 else 0.

(** The body of the [forEach] callback for one block: the cue it pushes, or
    [None] when it returns early or the times are not numbers. *)
Definition parseBlock (block : string) : result (option SubtitleCue) :=
  let lines := split NL (trim block) in
  if (List.length lines <? 2)%nat then Ok None
  else
    line0 <- deref (nth_error lines 0) ;;
    let ti := timeIndex line0 lines in
    match nth_error lines ti with
    | None | Some EmptyString => Ok None
    | Some timeLine =>
        if negb (includes "-->" timeLine) then Ok None
        else
          let sides := map trim (split "-->" timeLine) in
          st <- parseTime (nth_error sides 0) ;;
          en <- parseTime (nth_error sides 1) ;;
          let txt := strip_tags (join NL (skipn (ti + 1) lines)) in
          if negb (isNaN st) && negb (isNaN en)
          then Ok (Some {| start := st; end_ := en; text := txt |})
          else Ok None
    end.

(** [cues.push(c)] when the callback produced a cue. *)
Definition push_cue (cues : list SubtitleCue) (c : option SubtitleCue)
  : list SubtitleCue :=
  match c with
  | Some c => cues ++ [c]
  | None => cues
  end.

(** [blocks.forEach(...)] over the array [cues]. *)
Fixpoint forEach_block (blocks : list string) (cues : list SubtitleCue)
  : result (list SubtitleCue) :=
  match blocks with
  | [] => Ok cues
  | b :: bs => c <- parseBlock b ;; forEach_block bs (push_cue cues c)
  end.

Definition normalize (content : string) : string :=
  replace_cr (replace_crlf content).

Definition parseSRT (content : string) : result (list SubtitleCue) :=
  forEach_block (split NLNL (normalize content)) [].


(** ** Chapters *)

(** A chapter object.  [ref] is the identity of the object: [indexOf]
    compares array elements with [===], that is by identity and not by
    content. *)
Record Chapter : Type := {
  ref : nat;
  title : string;
  startTime : number;
  endTime : option number
}.

(** SortCompare of [Array.prototype.sort]: a NaN result of the comparison
    function counts as 0. *)
Definition sort_compare {A} (comparefn : A -> A -> number) (x y : A)
  : number :=
  let v := comparefn x y in
  if isNaN v then Fin 0%Q else v.

(** [Array.prototype.sort], a stable sort: [x] is placed after the elements
    it compares greater than.  (For a comparison function that is not a
    consistent order the standard leaves the result open; the component
    sorts start times that passed [startTime < duration], on which
    [a - b] is one.) *)
Fixpoint insert {A} (comparefn : A -> A -> number) (x : A) (l : list A)
  : list A :=
  match l with
  | [] => [x]
  | y :: l' =>
      if gt (sort_compare comparefn x y) (Fin 0%Q)
      then y :: insert comparefn x l'
      else x :: l
  end.

Fixpoint sort {A} (comparefn : A -> A -> number) (l : list A) : list A :=
  match l with
  | [] => []
  | x :: l' => insert comparefn x (sort comparefn l')
  end.

(** The memoised [chapters]: the active chapter list, derived from
    [video.metadata.chapters] and [duration]. *)
Definition chapters (metadata_chapters : option (list Chapter))
                    (duration : number) : list Chapter :=
  match metadata_chapters with
  | None => []
  | Some cs =>
      if is_zero duration then []
      else sort (fun a b => sub (startTime a) (startTime b))
                (filter (fun c => lt (startTime c) duration) cs)
  end.

(** [[...chapters].reverse().find(c => t >= c.startTime)] *)
Definition find_current (chs : list Chapter) (t : number) : option Chapter :=
  find (fun c => ge t (startTime c)) (rev chs).

(** The memoised [currentChapter]. *)
Definition currentChapter (chs : list Chapter) (currentTime : number)
  : option Chapter :=
  match chs with
  | [] => None
  | _ => find_current chs currentTime
  end.

(** [chapters.indexOf(c)]: the first index holding the object [c], or -1. *)
Fixpoint indexOf (chs : list Chapter) (c : Chapter) : Z :=
  match chs with
  | [] => (-1)%Z
  | x :: chs' =>
      if (ref x =? ref c)%nat then 0%Z
      else
        let i := indexOf chs' c in
        if (i <? 0)%Z then (-1)%Z else (i + 1)%Z
  end.

(** ** Tracks *)

Record Track : Type := {
  id : string;
  label : string;
  lang : option string;
  isDefault : option bool
}.

(** ** The component's state, its refs and the host *)

(** The part of the [HTMLVideoElement] behind [videoRef.current] that the
    component reads and writes.  An assignment to [currentTime] is kept as
    it is: clamping to the media length is the engine's business. *)
Record Video : Type := {
  v_currentTime : number;
  v_paused : bool;
  v_error : option N      (* [v.error.code]; [None]: [v.error] is null *)
}.

(** The two callbacks the component hands to [window.setTimeout]. *)
Inductive TimerCallback : Type :=
| HideControlsAndCursor      (* armed by [handleMouseMove], 3000 ms *)
| HideControls.              (* armed by [showControlsTemp], 2000 ms *)

Record Timer : Type := {
  handle : nat;
  callback : TimerCallback;
  delay : nat
}.

(** [useState] cells for playback. *)
Record Playback : Type := {
  isPlaying : bool;
  isBuffering : bool;
  currentTime : number;
  duration : number;
  error : option string
}.

(** [useState] cells for the control bar and the three overlay panels. *)
Record Panels : Type := {
  showControls : bool;
  showStats : bool;
  showChapterList : bool;
  showSettings : bool
}.

(** [useState] cells for subtitles. *)
Record Subtitles : Type := {
  subtitleTracks : list Track;
  selectedSubtitleTrack : string;
  activeCues : list SubtitleCue;
  subtitleOffset : number
}.

(** Refs and the variable [animationFrameId] of the running stats effect.
    [statsSamples] counts the snapshots stored by [setRealtimeStats]; the
    sampled values play no part in scheduling. *)
Record Refs : Type := {
  videoRef : option Video;
  controlsTimeoutRef : option nat;
  animationFrameId : option nat;
  statsSamples : nat
}.

(** The host: pending timers and animation frames, the next handle it will
    give out, [document.body.style.cursor], how often the hidden file input
    was clicked, and whether React still has the component mounted (state
    updates of an unmounted component are dropped). *)
Record Host : Type := {
  timers : list Timer;
  frames : list nat;
  next_handle : nat;
  cursor : string;
  picker_clicks : nat;
  mounted : bool
}.

Record World : Type := {
  playback : Playback;
  panels : Panels;
  subs : Subtitles;
  refs : Refs;
  host : Host
}.

(** *** Field updates *)

Definition on_playback (f : Playback -> Playback) (w : World) : World :=
  {| playback := f (playback w); panels := panels w; subs := subs w;
     refs := refs w; host := host w |}.
Definition on_panels (f : Panels -> Panels) (w : World) : World :=
  {| playback := playback w; panels := f (panels w); subs := subs w;
     refs := refs w; host := host w |}.
Definition on_subs (f : Subtitles -> Subtitles) (w : World) : World :=
  {| playback := playback w; panels := panels w; subs := f (subs w);
     refs := refs w; host := host w |}.
Definition on_refs (f : Refs -> Refs) (w : World) : World :=
  {| playback := playback w; panels := panels w; subs := subs w;
     refs := f (refs w); host := host w |}.
Definition on_host (f : Host -> Host) (w : World) : World :=
  {| playback := playback w; panels := panels w; subs := subs w;
     refs := refs w; host := f (host w) |}.

Definition setIsPlaying (b : bool) : World -> World :=
  on_playback (fun p =>
    {| isPlaying := b; isBuffering := isBuffering p;
       currentTime := currentTime p; duration := duration p;
       error := error p |}).
Definition setIsBuffering (b : bool) : World -> World :=
  on_playback (fun p =>
    {| isPlaying := isPlaying p; isBuffering := b;
       currentTime := currentTime p; duration := duration p;
       error := error p |}).
Definition setCurrentTime (t : number) : World -> World :=
  on_playback (fun p =>
    {| isPlaying := isPlaying p; isBuffering := isBuffering p;
       currentTime := t; duration := duration p; error := error p |}).
Definition setDuration (d : number) : World -> World :=
  on_playback (fun p =>
    {| isPlaying := isPlaying p; isBuffering := isBuffering p;
       currentTime := currentTime p; duration := d; error := error p |}).
Definition setError (e : option string) : World -> World :=
  on_playback (fun p =>
    {| isPlaying := isPlaying p; isBuffering := isBuffering p;
       currentTime := currentTime p; duration := duration p; error := e |}).

Definition setShowControls (b : bool) : World -> World :=
  on_panels (fun o =>
    {| showControls := b; showStats := showStats o;
       showChapterList := showChapterList o;
       showSettings := showSettings o |}).
Definition setShowStats_cell (b : bool) : World -> World :=
  on_panels (fun o =>
    {| showControls := showControls o; showStats := b;
       showChapterList := showChapterList o;
       showSettings := showSettings o |}).
Definition setShowChapterList (b : bool) : World -> World :=
  on_panels (fun o =>
    {| showControls := showControls o; showStats := showStats o;
       showChapterList := b; showSettings := showSettings o |}).
Definition setShowSettings (b : bool) : World -> World :=
  on_panels (fun o =>
    {| showControls := showControls o; showStats := showStats o;
       showChapterList := showChapterList o; showSettings := b |}).

Definition setSubtitleTracks (f : list Track -> list Track)
  : World -> World :=
  on_subs (fun s =>
    {| subtitleTracks := f (subtitleTracks s);
       selectedSubtitleTrack := selectedSubtitleTrack s;
       activeCues := activeCues s; subtitleOffset := subtitleOffset s |}).
Definition setSelectedSubtitleTrack (i : string) : World -> World :=
  on_subs (fun s =>
    {| subtitleTracks := subtitleTracks s; selectedSubtitleTrack := i;
       activeCues := activeCues s; subtitleOffset := subtitleOffset s |}).
Definition setActiveCues (cs : list SubtitleCue) : World -> World :=
  on_subs (fun s =>
    {| subtitleTracks := subtitleTracks s;
       selectedSubtitleTrack := selectedSubtitleTrack s;
       activeCues := cs; subtitleOffset := subtitleOffset s |}).

Definition set_videoRef (v : option Video) : World -> World :=
  on_refs (fun r =>
    {| videoRef := v; controlsTimeoutRef := controlsTimeoutRef r;
       animationFrameId := animationFrameId r;
       statsSamples := statsSamples r |}).
Definition set_controlsTimeoutRef (h : option nat) : World -> World :=
  on_refs (fun r =>
    {| videoRef := videoRef r; controlsTimeoutRef := h;
       animationFrameId := animationFrameId r;
       statsSamples := statsSamples r |}).
Definition set_animationFrameId (h : option nat) : World -> World :=
  on_refs (fun r =>
    {| videoRef := videoRef r; controlsTimeoutRef := controlsTimeoutRef r;
       animationFrameId := h; statsSamples := statsSamples r |}).
Definition setRealtimeStats : World -> World :=
  on_refs (fun r =>
    {| videoRef := videoRef r; controlsTimeoutRef := controlsTimeoutRef r;
       animationFrameId := animationFrameId r;
       statsSamples := S (statsSamples r) |}).

Definition set_timers (f : list Timer -> list Timer) : World -> World :=
  on_host (fun h =>
    {| timers := f (timers h); frames := frames h;
       next_handle := next_handle h; cursor := cursor h;
       picker_clicks := picker_clicks h; mounted := mounted h |}).
Definition set_frames (f : list nat -> list nat) : World -> World :=
  on_host (fun h =>
    {| timers := timers h; frames := f (frames h);
       next_handle := next_handle h; cursor := cursor h;
       picker_clicks := picker_clicks h; mounted := mounted h |}).
Definition bump_handle : World -> World :=
  on_host (fun h =>
    {| timers := timers h; frames := frames h;
       next_handle := S (next_handle h); cursor := cursor h;
       picker_clicks := picker_clicks h; mounted := mounted h |}).
Definition set_cursor (c : string) : World -> World :=
  on_host (fun h =>
    {| timers := timers h; frames := frames h;
       next_handle := next_handle h; cursor := c;
       picker_clicks := picker_clicks h; mounted := mounted h |}).
Definition click_picker : World -> World :=
  on_host (fun h =>
    {| timers := timers h; frames := frames h;
       next_handle := next_handle h; cursor := cursor h;
       picker_clicks := S (picker_clicks h); mounted := mounted h |}).
Definition set_mounted (b : bool) : World -> World :=
  on_host (fun h =>
    {| timers := timers h; frames := frames h;
       next_handle := next_handle h; cursor := cursor h;
       picker_clicks := picker_clicks h; mounted := b |}).

(** [videoRef.current.currentTime = t] *)
Definition assign_video_currentTime (t : number) (w : World) : World :=
  match videoRef (refs w) with
  | Some v =>
      set_videoRef (Some {| v_currentTime := t; v_paused := v_paused v;
                            v_error := v_error v |}) w
  | None => w
  end.

Definition assign_video_paused (b : bool) (w : World) : World :=
  match videoRef (refs w) with
  | Some v =>
      set_videoRef (Some {| v_currentTime := v_currentTime v; v_paused := b;
                            v_error := v_error v |}) w
  | None => w
  end.

(** ** Timers and animation frames *)

(** [window.setTimeout(cb, ms)]: the handle and the new world. *)
Definition setTimeout (cb : TimerCallback) (ms : nat) (w : World)
  : nat * World :=
  let h := next_handle (host w) in
  (h, bump_handle
        (set_timers
           (fun ts => ts ++ [{| handle := h; callback := cb; delay := ms |}])
           w)).

Definition clearTimeout (h : nat) : World -> World :=
  set_timers (filter (fun t => negb (handle t =? h)%nat)).

Definition requestAnimationFrame (w : World) : nat * World :=
  let h := next_handle (host w) in
  (h, bump_handle (set_frames (fun fs => fs ++ [h]) w)).

(** [cancelAnimationFrame(id)]; nothing happens for [undefined]. *)
Definition cancelAnimationFrame (h : option nat) : World -> World :=
  match h with
  | Some h => set_frames (filter (fun f => negb (f =? h)%nat))
  | None => fun w => w
  end.

(** [if (controlsTimeoutRef.current) clearTimeout(controlsTimeoutRef.current)]:
    the handle 0 is falsy, like [null]. *)
Definition clear_controls_timeout (w : World) : World :=
  match controlsTimeoutRef (refs w) with
  | Some (S n) => clearTimeout (S n) w
  | _ => w
  end.

Definition showControlsTemp (w : World) : World :=
  let w1 := setShowControls true w in
  let w2 := clear_controls_timeout w1 in
  let (h, w3) := setTimeout HideControls 2000 w2 in
  set_controlsTimeoutRef (Some h) w3.

Definition handleMouseMove (w : World) : World :=
  let w1 := set_cursor "default" (setShowControls true w) in
  let w2 := clear_controls_timeout w1 in
  if isPlaying (playback w) && negb (showChapterList (panels w))
     && negb (showSettings (panels w))
  then
    let (h, w3) := setTimeout HideControlsAndCursor 3000 w2 in
    set_controlsTimeoutRef (Some h) w3
  else w2.

(** A state update requested by a late callback reaches the state only
    while the component is mounted. *)
Definition when_mounted (f : World -> World) (w : World) : World :=
  if mounted (host w) then f w else w.

Definition run_callback (cb : TimerCallback) (w : World) : World :=
  match cb with
  | HideControls => when_mounted (setShowControls false) w
  | HideControlsAndCursor =>
      set_cursor "none" (when_mounted (setShowControls false) w)
  end.

(** The host runs the pending timer [h], if there is one. *)
Definition fire_timer (h : nat) (w : World) : World :=
  match find (fun t => (handle t =? h)%nat) (timers (host w)) with
  | Some t => run_callback (callback t) (clearTimeout h w)
  | None => w
  end.

(** ** The realtime stats loop *)

Definition updateStats (w : World) : World :=
  let w1 := match videoRef (refs w) with
            | Some _ => when_mounted setRealtimeStats w
            | None => w
            end in
  let (h, w2) := requestAnimationFrame w1 in
  set_animationFrameId (Some h) w2.

(** The effect with dependency [[showStats]] and the cleanup it returns. *)
Definition stats_effect (w : World) : World :=
  if showStats (panels w) then updateStats (set_animationFrameId None w)
  else w.

Definition stats_cleanup (w : World) : World :=
  cancelAnimationFrame (animationFrameId (refs w)) w.

(** [setShowStats(b)] followed by React's effect pass: when the value
    changed, the cleanup of the previous run (there is one when the loop was
    on) and then the effect. *)
Definition setShowStats (b : bool) (w : World) : World :=
  let old := showStats (panels w) in
  let w1 := setShowStats_cell b w in
  if Bool.eqb old b then w1
  else stats_effect (if old then stats_cleanup w1 else w1).

(** The host runs the pending animation frame [h], if there is one. *)
Definition fire_frame (h : nat) (w : World) : World :=
  if existsb (Nat.eqb h) (frames (host w))
  then updateStats (set_frames (filter (fun f => negb (f =? h)%nat)) w)
  else w.

(** ** Unmounting

    React runs the cleanups the effects returned: the stats loop is
    cancelled; the video listeners are removed and the element is paused and
    unloaded.  No effect returns a cleanup for [controlsTimeoutRef]. *)
Definition unmount (w : World) : World :=
  let w1 := if showStats (panels w) then stats_cleanup w else w in
  let w2 := assign_video_paused true w1 in
  set_mounted false (set_videoRef None w2).

(** ** Playback *)

Definition togglePlay (w : World) : World :=
  match videoRef (refs w) with
  | None => w
  | Some v =>
      if v_paused v then setIsPlaying true (assign_video_paused false w)
      else setIsPlaying false (assign_video_paused true w)
  end.

(** ** Subtitles *)

Definition string_of_N (n : N) : string :=
  DecimalString.NilZero.string_of_uint (N.to_uint n).

(** The [onload] callback of the reader in [handleSubtitleFile]: [fileName]
    is [file.name], [now] is [Date.now()], [content] the text read. *)
Definition handleSubtitleFile (fileName : string) (now : N)
                              (content : string) (w : World) : World :=
  match parseSRT content with
  | Throw => w
  | Ok parsed =>
      let newTrackId := ("upload-" ++ string_of_N now)%string in
      let newTrack := {| id := newTrackId; label := fileName;
                         lang := Some "Unknown"; isDefault := None |} in
      let w1 := setSubtitleTracks (fun prev => prev ++ [newTrack]) w in
      let w2 := setSelectedSubtitleTrack newTrackId w1 in
      let w3 := setActiveCues parsed w2 in
      setShowSettings true w3
  end.

Definition toggleSubtitles (w : World) : World :=
  if (selectedSubtitleTrack (subs w) =? "off")%string then
    match subtitleTracks (subs w) with
    | t :: _ => setSelectedSubtitleTrack (id t) w
    | [] => click_picker w
    end
  else setSelectedSubtitleTrack "off" w.

(** The effect that keeps [currentSubtitle] up to date, as a function of the
    state it depends on. *)
Definition currentSubtitle (w : World) : string :=
  if (selectedSubtitleTrack (subs w) =? "off")%string
     || (List.length (activeCues (subs w)) =? 0)%nat
  then ""
  else
    let adjustedTime := sub (currentTime (playback w))
                            (subtitleOffset (subs w)) in
    match find (fun s => ge adjustedTime (start s)
                         && le adjustedTime (end_ s))
               (activeCues (subs w)) with
    | Some cue => text cue
    | None => ""
    end.

(** ** Chapter navigation *)

Section WithVideo.

(** [video.metadata.chapters] of the [video] prop. *)
Variable metadata_chapters : option (list Chapter).

Definition active (w : World) : list Chapter :=
  chapters metadata_chapters (duration (playback w)).

(** [videoRef.current.currentTime = t; setCurrentTime(t)] *)
Definition seek_to (t : number) (w : World) : World :=
  setCurrentTime t (assign_video_currentTime t w).

Definition skipNextChapter (w : World) : World :=
  match active w, videoRef (refs w) with
  | [], _ | _, None => w
  | chs, Some _ =>
      let next := find (fun c => gt (startTime c)
                                    (add (currentTime (playback w))
                                         (of_Z 1))) chs in
      let w1 := match next with
                | Some next => seek_to (startTime next) w
                | None => w
                end in
      showControlsTemp w1
  end.

(** [setCurrentTime(videoRef.current.currentTime)] *)
Definition read_back (w : World) : World :=
  match videoRef (refs w) with
  | Some v => setCurrentTime (v_currentTime v) w
  | None => w
  end.

Definition skipPrevChapter (w : World) : result World :=
  match active w, videoRef (refs w) with
  | [], _ | _, None => Ok w
  | chs, Some _ =>
      let t := currentTime (playback w) in
      w1 <-
        match find_current chs t with
        | None => Ok (assign_video_currentTime (Fin 0%Q) w)
        | Some current =>
            if lt (sub t (startTime current)) (of_Z 3) then
              let prevIndex := (indexOf chs current - 1)%Z in
              if (prevIndex >=? 0)%Z then
                prev <- deref (nth_error chs (Z.to_nat prevIndex)) ;;
                Ok (assign_video_currentTime (startTime prev) w)
              else Ok (assign_video_currentTime (Fin 0%Q) w)
            else Ok (assign_video_currentTime (startTime current) w)
        end ;;
      Ok (showControlsTemp (read_back w1))
  end.

End WithVideo.

(** ** The media error handler *)

Definition msg_unknown : string := "An unknown playback error occurred.".
Definition msg_network : string :=
  "A network error caused the video download to fail.".
Definition msg_decode : string :=
  "The video playback was aborted due to a corruption problem or because the video used features your browser did not support.".
Definition msg_src_not_supported : string :=
  "The video could not be loaded, either because the server or network failed or because the format is not supported.".

Definition onError (w : World) : World :=
  match videoRef (refs w) with
  | None => w
  | Some v =>
      match v_error v with
      | None => w
      | Some code =>
          match code with
          | 1%N => w
          | _ =>
              let msg := match code with
                         | 2%N => msg_network
                         | 3%N => msg_decode
                         | 4%N => msg_src_not_supported
                         | _ => msg_unknown
                         end in
              setIsBuffering false (setIsPlaying false (setError (Some msg) w))
          end
      end
  end.

(** ** The overlay panels *)

Definition chapterListButton_onClick (w : World) : World :=
  let w1 := setShowChapterList (negb (showChapterList (panels w))) w in
  setShowSettings false (setShowStats false w1).

Definition statsButton_onClick (w : World) : World :=
  let w1 := setShowStats (negb (showStats (panels w))) w in
  setShowSettings false (setShowChapterList false w1).

Definition settingsButton_onClick (w : World) : World :=
  let w1 := setShowSettings (negb (showSettings (panels w))) w in
  setShowChapterList false (setShowStats false w1).

(** The chapter title above the seek bar. *)
Definition chapterTitle_onClick (w : World) : World :=
  setShowChapterList true w.

(** ** Events and runs *)

Inductive Event : Type :=
| ChapterListButton
| StatsButton
| SettingsButton
| ChapterTitle
| CloseChapterList
| CloseStats
| CloseSettings
| CCButton
| SubtitleLoaded (fileName : string) (now : N) (content : string)
| MouseMove
| PlayButton
| NextChapter
| PrevChapter
| VideoError
| TimerFires (h : nat)
| FrameFires (h : nat)
| Unmount.

Definition step (metadata_chapters : option (list Chapter))
                (e : Event) (w : World) : World :=
  match e with
  | ChapterListButton => chapterListButton_onClick w
  | StatsButton => statsButton_onClick w
  | SettingsButton => settingsButton_onClick w
  | ChapterTitle => chapterTitle_onClick w
  | CloseChapterList => setShowChapterList false w
  | CloseStats => setShowStats false w
  | CloseSettings => setShowSettings false w
  | CCButton => toggleSubtitles w
  | SubtitleLoaded n t c => handleSubtitleFile n t c w
  | MouseMove => handleMouseMove w
  | PlayButton => togglePlay w
  | NextChapter => skipNextChapter metadata_chapters w
  | PrevChapter =>
      match skipPrevChapter metadata_chapters w with
      | Ok w' => w'
      | Throw => w
      end
  | VideoError => onError w
  | TimerFires h => fire_timer h w
  | FrameFires h => fire_frame h w
  | Unmount => unmount w
  end.

Definition run (metadata_chapters : option (list Chapter))
               (es : list Event) (w : World) : World :=
  fold_left (fun w e => step metadata_chapters e w) es w.

(** The world right after mounting over the element [v]: the initial values
    of the [useState] cells and refs. *)
Definition mount (v : Video) : World :=
  {| playback := {| isPlaying := false; isBuffering := false;
                    currentTime := Fin 0%Q; duration := Fin 0%Q;
                    error := None |};
     panels := {| showControls := true; showStats := false;
                  showChapterList := false; showSettings := false |};
     subs := {| subtitleTracks := []; selectedSubtitleTrack := "off";
                activeCues := []; subtitleOffset := Fin 0%Q |};
     refs := {| videoRef := Some v; controlsTimeoutRef := None;
                animationFrameId := None; statsSamples := 0 |};
     host := {| timers := []; frames := []; next_handle := 1;
                cursor := ""; picker_clicks := 0; mounted := true |} |}.

(** ** The subtitle menu of the settings panel *)

(** The entry "Disabled", the entry of the [i]-th track of the list (one
    button is rendered per track), and the button "Import .SRT". *)
Definition subtitleOff_onClick (w : World) : World :=
  setSelectedSubtitleTrack "off" w.

Definition subtitleTrack_onClick (i : nat) (w : World) : World :=
  match nth_error (subtitleTracks (subs w)) i with
  | Some t => setSelectedSubtitleTrack (id t) w
  | None => w
  end.

Definition importButton_onClick (w : World) : World := click_picker w.

(** ** The intro window *)

(** [video.metadata.intro] *)
Record Intro : Type := {
  intro_start : number;
  intro_end : number
}.

(** [showSkipIntro], as a truth value. *)
Definition showSkipIntro (intro : option Intro) (w : World) : bool :=
  match intro with
  | Some i =>
      ge (currentTime (playback w)) (intro_start i)
      && lt (currentTime (playback w)) (intro_end i)
  | None => false
  end.

Definition skipIntro (intro : option Intro) (w : World) : World :=
  match intro, videoRef (refs w) with
  | Some i, Some _ => showControlsTemp (seek_to (intro_end i) w)
  | _, _ => w
  end.

(** ** Listeners of the video element, and seeking *)

(** [timeupdate], [loadedmetadata] (with [d] for [v.duration]; the promise
    of [v.play()] settles later), [waiting], [playing], [ended]. *)
Definition onTimeUpdate (w : World) : World :=
  match videoRef (refs w) with
  | Some v => setCurrentTime (v_currentTime v) w
  | None => w
  end.

Definition onLoadedMetadata (d : number) : World -> World := setDuration d.

(** [v.play()] resolved: the element plays. *)
Definition play_resolved (w : World) : World :=
  setIsPlaying true (assign_video_paused false w).

(** [v.play()] rejected, with an [AbortError] or with another error. *)
Definition play_rejected (abortError : bool) (w : World) : World :=
  if abortError then w else setIsPlaying false w.

Definition onWaiting : World -> World := setIsBuffering true.
Definition onPlaying : World -> World := setIsBuffering false.
Definition onEnded : World -> World := setIsPlaying false.

(** [seek(delta)]: the element moves; the [currentTime] cell follows with
    the next [timeupdate]. *)
Definition seek (delta : number) (w : World) : World :=
  match videoRef (refs w) with
  | None => w
  | Some v => showControlsTemp
                (assign_video_currentTime (add (v_currentTime v) delta) w)
  end.

(** [handleSeekRange] with [time = Number(e.target.value)]. *)
Definition handleSeekRange (time : number) (w : World) : World :=
  match videoRef (refs w) with
  | Some _ => seek_to time w
  | None => w
  end.

(** What can happen to the mounted player: an event of [step], a click in
    the subtitle menu, an event of the video element, a seek, a skip of the
    intro, or the pulse of the controls that the volume keys give. *)
Inductive Action : Type :=
| OnEvent (e : Event)
| SubtitleOff
| SubtitleTrack (i : nat)
| ImportButton
| TimeUpdate
| LoadedMetadata (d : number)
| PlayResolved
| PlayRejected (abortError : bool)
| Waiting
| Playing
| Ended
| KeySeek (delta : number)
| SeekRange (time : number)
| SkipIntro (intro : option Intro)
| Pulse.

Definition act (metadata_chapters : option (list Chapter))
               (a : Action) (w : World) : World :=
  match a with
  | OnEvent e => step metadata_chapters e w
  | SubtitleOff => subtitleOff_onClick w
  | SubtitleTrack i => subtitleTrack_onClick i w
  | ImportButton => importButton_onClick w
  | TimeUpdate => onTimeUpdate w
  | LoadedMetadata d => onLoadedMetadata d w
  | PlayResolved => play_resolved w
  | PlayRejected abortError => play_rejected abortError w
  | Waiting => onWaiting w
  | Playing => onPlaying w
  | Ended => onEnded w
  | KeySeek delta => seek delta w
  | SeekRange time => handleSeekRange time w
  | SkipIntro intro => skipIntro intro w
  | Pulse => showControlsTemp w
  end.

Definition session (metadata_chapters : option (list Chapter))
                   (acts : list Action) (w : World) : World :=
  fold_left (fun w a => act metadata_chapters a w) acts w.

(** ** Volume

    The cells [volume] and [isMuted], and the [volume] and [muted]
    attributes of the element behind [videoRef.current] ([None] when no
    element is attached). *)
Record ElementAudio : Type := {
  v_volume : number;
  v_muted : bool
}.

Record Audio : Type := {
  volume : number;
  isMuted : bool;
  audio_el : option ElementAudio
}.

Definition changeVolume (delta : number) (a : Audio) : Audio :=
  match audio_el a with
  | None => a
  | Some e =>
      let newVol := Math_min (Math_max (add (v_volume e) delta) (Fin 0%Q))
                             (Fin 1%Q) in
      {| volume := newVol; isMuted := is_zero newVol;
         audio_el := Some {| v_volume := newVol; v_muted := v_muted e |} |}
  end.

Definition toggleMute (a : Audio) : Audio :=
  match audio_el a with
  | None => a
  | Some e =>
      let newMuted := negb (isMuted a) in
      {| volume := if newMuted then Fin 0%Q else Fin 1%Q;
         isMuted := newMuted;
         audio_el := Some {| v_volume := v_volume e; v_muted := newMuted |}
      |}
  end.

(** ** The buffer field of the stats snapshot *)

(** The [for] loop of [updateStats] over [v.buffered], a list of ranges
    [(start, end)]: the end of the first range that holds [t], or 0. *)
Fixpoint bufferEnd (buffered : list (number * number)) (t : number)
  : number :=
  match buffered with
  | [] => Fin 0%Q
  | (s, e) :: rest =>
      if le s t && ge e t then e else bufferEnd rest t
  end.

(** [Math.max(0, bufferEnd - v.currentTime)] *)
Definition bufferAhead (buffered : list (number * number)) (t : number)
  : number :=
  Math_max (Fin 0%Q) (sub (bufferEnd buffered t) t).

(** ** The time under the pointer on the seek bar *)

(** [handleSeekBarMouseMove]: the value handed to [setHoverTime], or [None]
    when the handler returns early ([!duration]); [left] and [width] are
    those of the bounding rectangle. *)
Definition handleSeekBarMouseMove (duration clientX left width : number)
  : option number :=
  if isNaN duration || is_zero duration then None
  else
    let percent :=
      Math_max (Fin 0%Q)
               (Math_min (Fin 1%Q) (div (sub clientX left) width)) in
    Some (mul percent duration).

(** ** Keyboard shortcuts *)

Record KeyboardEvent : Type := {
  key : string;
  shiftKey : bool
}.

(** What the handler reads besides the event: whether the focus is in an
    input element, whether an element is in fullscreen, and the values its
    closure captured. *)
Record KeyContext : Type := {
  focus_in_input : bool;
  fullscreenElement : bool;
  ctx_showSkipIntro : bool;
  ctx_showChapterList : bool;
  ctx_showSettings : bool
}.

(** The calls [handleKeyDown] makes. *)
Inductive Call : Type :=
| PreventDefault
| CallTogglePlay
| CallToggleFullscreen
| CallToggleMute
| CallToggleSubtitles
| CallSkipIntro
| CallSeek (delta : number)
| CallChangeVolume (delta : number)
| CallShowControlsTemp
| CallSkipNextChapter
| CallSkipPrevChapter
| CallSetShowChapterList (b : bool)
| CallSetShowSettings (b : bool)
| CallOnBack.

(** [handleKeyDown]: the calls made, in order. *)
Definition handleKeyDown (e : KeyboardEvent) (c : KeyContext) : list Call :=
  if focus_in_input c then []
  else
    let k := toLowerCase (key e) in
    if (k =? " ")%string || (k =? "k")%string
    then [PreventDefault; CallTogglePlay]
    else if (k =? "f")%string then [PreventDefault; CallToggleFullscreen]
    else if (k =? "m")%string then [PreventDefault; CallToggleMute]
    else if (k =? "c")%string then [PreventDefault; CallToggleSubtitles]
    else if (k =? "s")%string then
      (if ctx_showSkipIntro c then [PreventDefault; CallSkipIntro] else [])
    else if (k =? "arrowleft")%string || (k =? "j")%string
    then [PreventDefault; CallSeek (of_Z (-10))]
    else if (k =? "arrowright")%string || (k =? "l")%string
    then [PreventDefault; CallSeek (of_Z 10)]
    else if (k =? "arrowup")%string
    then [PreventDefault; CallChangeVolume (Fin (1 # 10));
          CallShowControlsTemp]
    else if (k =? "arrowdown")%string
    then [PreventDefault; CallChangeVolume (Fin (- (1 # 10)));
          CallShowControlsTemp]
    else if (k =? "n")%string then
      (if shiftKey e then [PreventDefault; CallSkipNextChapter] else [])
    else if (k =? "p")%string then
      (if shiftKey e then [PreventDefault; CallSkipPrevChapter] else [])
    else if (k =? "escape")%string then
      PreventDefault ::
      (if ctx_showChapterList c then [CallSetShowChapterList false]
       else if ctx_showSettings c then [CallSetShowSettings false]
       else if fullscreenElement c then [CallToggleFullscreen]
       else [CallOnBack])
    else [].

End Player.

(* ================================================================== *)
(** * Vocabulary of the statements *)
(* ================================================================== *)

Import JS Player.

(** A chapter with the given identity and start, in whole seconds. *)
Definition chapter_at (i : nat) (z : Z) : Chapter :=
  {| ref := i; title := ""; startTime := of_Z z; endTime := None |}.

(** The chapters of the running example: starts 0, 60 and 180. *)
Definition three_chapters : list Chapter :=
  [chapter_at 0 0; chapter_at 1 60; chapter_at 2 180].

(** A paused element without error, at position 0. *)
Definition fresh_video : Video :=
  {| v_currentTime := Fin 0%Q; v_paused := true; v_error := None |}.

(** The world after mounting, once the duration [d] is known and playback
    has reached [t]. *)
Definition playing_at (d t : number) : World :=
  setCurrentTime t (setDuration d (mount fresh_video)).

(** Both the element and the [currentTime] cell are at [t]. *)
Definition positioned_at (w : World) (t : number) : Prop :=
  currentTime (playback w) = t /\
  option_map v_currentTime (videoRef (refs w)) = Some t.


(** The element of [w] reports the media error [code]. *)
Definition video_error (w : World) (code : N) : Prop :=
  exists v, videoRef (refs w) = Some v /\ v_error v = Some code.


(** [t >= c.startTime], the test that finds the current chapter. *)
Definition started (t : number) (c : Chapter) : bool :=
  ge t (startTime c).

(** Number of overlay panels that are open. *)
Definition open_panels (w : World) : nat :=
  (if showStats (panels w) then 1 else 0)
  + (if showSettings (panels w) then 1 else 0)
  + (if showChapterList (panels w) then 1 else 0).


(** A number that is below some other number: minus infinity or finite. *)
Definition bounded_above (a : number) : Prop :=
  match a with
  | NInf | Fin _ => True
  | _ => False
  end.

(** The comparison function handed to [sort]: [a.startTime - b.startTime]. *)
Definition by_startTime (a b : Chapter) : number :=
  sub (startTime a) (startTime b).

(** [a] starts no later than [b]. *)
Definition starts_le (a b : Chapter) : Prop :=
  le (startTime a) (startTime b) = true.

(** The lines of a block, as [parseBlock] computes them. *)
Definition block_lines (block : string) : list string :=
  split NL (trim block).

(** The line [parseBlock] takes for the time line. *)
Definition time_line (block : string) : option string :=
  match block_lines block with
  | line0 :: _ =>
      nth_error (block_lines block) (timeIndex line0 (block_lines block))
  | [] => None
  end.

(** The [i]-th trimmed piece of a time line cut at the separator. *)
Definition side (timeLine : string) (i : nat) : option string :=
  nth_error (map trim (split "-->" timeLine)) i.

(** The cues one block contributes. *)
Definition block_cues (block : string) : list SubtitleCue :=
  match parseBlock block with
  | Ok (Some c) => [c]
  | _ => []
  end.

(** A code unit that is no white space, no sign, no separator of a
    timestamp and no letter a numeric literal gives a meaning to. *)
Definition plain (c : ascii) : bool :=
  negb (is_ws c) && negb (c =? "-")%char && negb (c =? "+")%char
  && negb (c =? ":")%char && negb (comma_or_dot c)
  && negb (c =? "I")%char && negb (c =? LF)%char && negb (c =? CR)%char.

(** Not a line feed; not a carriage return. *)
Definition no_LF (c : ascii) : bool := negb (c =? LF)%char.
Definition no_CR (c : ascii) : bool := negb (c =? CR)%char.

(** Not ['<']; not ['>']. *)
Definition no_lt (c : ascii) : bool := negb (c =? "<")%char.
Definition no_gt (c : ascii) : bool := negb (c =? ">")%char.




(** The number a run of decimal digits denotes, read from the most
    significant digit on. *)
Fixpoint decimal (acc : Z) (d : string) : Z :=
  match d with
  | String c r => decimal (10 * acc + (Z.of_nat (nat_of_ascii c) - 48))%Z r
  | EmptyString => acc
  end.

Definition value (d : string) : Z := decimal 0 d.





(** Two numbers are the same value (a rational has many fractions). *)
Definition same (a b : number) : Prop :=
  match a, b with
  | NaN, NaN | PInf, PInf | NInf, NInf => True
  | Fin p, Fin q => (p == q)%Q
  | _, _ => False
  end.












(** A two-line subtitle file with one cue. *)
Definition one_cue_file : string :=
  ("00:01:02,500 --> 00:01:05,000" ++ NL ++ "Hello")%string.







(** The line-end conventions: LF, CR LF, and CR alone. *)
Inductive LineEnd : Type :=
| Unix
| Windows
| OldMac.

(** Every line feed of [s] written as CR LF; as CR. *)
Fixpoint to_crlf (s : string) : string :=
  match s with
  | String c r =>
      if (c =? LF)%char then String CR (String LF (to_crlf r))
      else String c (to_crlf r)
  | EmptyString => EmptyString
  end.

Fixpoint to_cr (s : string) : string :=
  match s with
  | String c r => String (if (c =? LF)%char then CR else c) (to_cr r)
  | EmptyString => EmptyString
  end.

(** The text [s], given with line feeds, written with the line ends [e]. *)
Definition written (e : LineEnd) (s : string) : string :=
  match e with
  | Unix => s
  | Windows => to_crlf s
  | OldMac => to_cr s
  end.

(** [Stripped s out]: [out] is [s] without its tags, read from left to
    right.  A tag is a ['<'], then one or more code units other than ['>'],
    then the ['>'] that follows; a ['<'] followed by one or more code units
    and no ['>'] before the end of [s] is a tag as well, and goes with all
    that follows it.  A ['<'] that is the last code unit, or that stands
    before a ['>'], is kept. *)
Inductive Stripped : string -> string -> Prop :=
| Stripped_end : Stripped "" ""
| Stripped_tag body rest out :
    body <> "" -> every no_gt body = true ->
    Stripped rest out ->
    Stripped (String "<" (body ++ String ">" rest)) out
| Stripped_unclosed body :
    body <> "" -> every no_gt body = true ->
    Stripped (String "<" body) ""
| Stripped_keep c rest out :
    (c <> "<"%char \/ rest = "" \/ exists r, rest = String ">" r) ->
    Stripped rest out ->
    Stripped (String c rest) (String c out).




(** While mounted, the stats loop has exactly its latest frame request
    pending when the panel is open, and none when it is closed. *)
Definition loop_inv (w : World) : Prop :=
  if showStats (panels w)
  then exists h, animationFrameId (refs w) = Some h /\
                 frames (host w) = [h]
  else frames (host w) = [].

(** The identifier given to a track imported at time [now]. *)
Definition upload_id (now : N) : string :=
  ("upload-" ++ string_of_N now)%string.

(** The subtitle shown at playback time [t]. *)
Definition subtitle_at (t : number) (w : World) : string :=
  currentSubtitle (setCurrentTime t w).

(** No ['<'] of [s] opens a match of the tag expression: each is the last
    code unit or is followed by ['>']. *)
Fixpoint tagless (s : string) : bool :=
  match s with
  | String c r =>
      (if (c =? "<")%char
       then match r with
            | String d _ => (d =? ">")%char
            | EmptyString => true
            end
       else true)
      && tagless r
  | EmptyString => true
  end.

(** The subtitle selection is "off" or the identifier of a track of the
    list. *)
Definition selection_valid (w : World) : Prop :=
  selectedSubtitleTrack (subs w) = "off" \/
  In (selectedSubtitleTrack (subs w)) (map id (subtitleTracks (subs w))).


(** [w'] has the timers and the timer ref of [w], and has given out no
    handle that [w] had not. *)
Definition quiet (w w' : World) : Prop :=
  timers (host w') = timers (host w) /\
  controlsTimeoutRef (refs w') = controlsTimeoutRef (refs w) /\
  next_handle (host w) <= next_handle (host w').

(** A world in the error state: the element reports the media error 3 and
    the handler has run. *)
Definition errored_world : World :=
  onError (set_videoRef
             (Some {| v_currentTime := Fin 0%Q; v_paused := false;
                      v_error := Some 3%N |})
             (mount fresh_video)).

(** The calls are none, or [preventDefault] first and then at least one
    call, none of which is [preventDefault] again. *)
Definition suppressed_or_ignored (calls : list Call) : Prop :=
  calls = [] \/
  exists a rest, calls = PreventDefault :: a :: rest /\
                 ~ In PreventDefault (a :: rest).

(** A context with the focus outside of any input. *)
Definition idle_context : KeyContext :=
  {| focus_in_input := false; fullscreenElement := true;
     ctx_showSkipIntro := false; ctx_showChapterList := false;
     ctx_showSettings := true |}.

(** An intro from 10 to 90 seconds. *)
Definition intro_10_90 : Intro :=
  {| intro_start := of_Z 10; intro_end := of_Z 90 |}.

(** No range of [buffered] holds [t]. *)
Definition unbuffered (buffered : list (number * number)) (t : number)
  : Prop :=
  Forall (fun r => le (fst r) t && ge (snd r) t = false) buffered.

(* ================================================================== *)
(** * Properties *)
(* ================================================================== *)

(** ** The parser never throws *)

Lemma push_front_nonempty c ps : push_front c ps <> [].
Proof. destruct ps; simpl; discriminate. Qed.

Lemma split_from_nonempty sep k s : split_from sep k s <> [].
Proof.
  revert k. induction s as [|c r IH]; intros k; cbn [split_from];
    [discriminate|].
  destruct k; [|apply IH].
  destruct (prefix sep (String c r)); [discriminate|].
  apply push_front_nonempty.
Qed.

Lemma split_class_nonempty p s : split_class p s <> [].
Proof.
  induction s as [|c r IH]; simpl; [discriminate|].
  destruct (p c); [discriminate|apply push_front_nonempty].
Qed.

Lemma parseTime_total o : exists n, parseTime o = Ok n.
Proof.
  destruct o as [[|c r]|]; try (eexists; reflexivity).
  unfold parseTime.
  destruct (split_class comma_or_dot (String c r)) as [|hms rest] eqn:E.
  - exfalso. exact (split_class_nonempty _ _ E).
  - cbn [nth_error deref bind]. eexists. reflexivity.
Qed.

Lemma parseBlock_total block : exists c, parseBlock block = Ok c.
Proof.
  unfold parseBlock. cbv zeta.
  destruct (split NL (trim block)) as [|line0 rest] eqn:E.
  { exfalso. exact (split_from_nonempty _ _ _ E). }
  destruct (List.length (line0 :: rest) <? 2)%nat;
    [eexists; reflexivity|].
  simpl (deref (nth_error (line0 :: rest) 0)). cbn [bind].
  destruct (nth_error (line0 :: rest) (timeIndex line0 (line0 :: rest)))
    as [[|c r]|]; try (eexists; reflexivity).
  destruct (negb (includes "-->" (String c r))); [eexists; reflexivity|].
  destruct (parseTime_total
              (nth_error (map trim (split "-->" (String c r))) 0))
    as [st ->].
  destruct (parseTime_total
              (nth_error (map trim (split "-->" (String c r))) 1))
    as [en ->].
  cbn [bind].
  destruct (negb (isNaN st) && negb (isNaN en)); eexists; reflexivity.
Qed.

Lemma push_cue_block cues block c :
  parseBlock block = Ok c -> push_cue cues c = cues ++ block_cues block.
Proof.
  intros E. unfold block_cues. rewrite E.
  destruct c; simpl; [reflexivity|]. symmetry. apply app_nil_r.
Qed.

(** The loop appends, block after block, what each block contributes. *)
Lemma forEach_block_cues blocks cues :
  forEach_block blocks cues = Ok (cues ++ flat_map block_cues blocks).
Proof.
  revert cues. induction blocks as [|b bs IH]; intros cues; simpl.
  - rewrite app_nil_r. reflexivity.
  - destruct (parseBlock_total b) as [c Hc]. rewrite Hc. simpl.
    rewrite IH, (push_cue_block cues b c Hc), <- app_assoc. reflexivity.
Qed.

Lemma parseSRT_blocks content :
  parseSRT content
  = Ok (flat_map block_cues (split NLNL (normalize content))).
Proof. unfold parseSRT. apply forEach_block_cues. Qed.

Lemma parseBlock_short block :
  List.length (block_lines block) < 2 -> parseBlock block = Ok None.
Proof.
  unfold parseBlock, block_lines. intros H.
  apply Nat.ltb_lt in H. rewrite H. reflexivity.
Qed.

Lemma parseBlock_unfold block tl :
  2 <= List.length (block_lines block) ->
  time_line block = Some tl ->
  parseBlock block =
  match tl with
  | EmptyString => Ok None
  | _ =>
      if negb (includes "-->" tl) then Ok None
      else
        st <- parseTime (side tl 0) ;;
        en <- parseTime (side tl 1) ;;
        let ti := match block_lines block with
                  | line0 :: _ => timeIndex line0 (block_lines block)
                  | [] => 0
                  end in
        let txt := strip_tags (join NL (skipn (ti + 1) (block_lines block))) in
        if negb (isNaN st) && negb (isNaN en)
        then Ok (Some {| start := st; end_ := en; text := txt |})
        else Ok None
  end.
Proof.
  unfold parseBlock, time_line, block_lines, side. cbv zeta.
  intros Hlen Htl.
  destruct (split NL (trim block)) as [|line0 rest] eqn:E;
    [discriminate|].
  replace (List.length (line0 :: rest) <? 2)%nat with false
    by (symmetry; apply Nat.ltb_ge; exact Hlen).
  simpl (deref (nth_error (line0 :: rest) 0)). cbn [bind]. rewrite Htl.
  destruct tl; reflexivity.
Qed.

(** C2. [parseSRT] returns normally on every string, and its cues are, in
    block order, what each block contributes on its own.  A block
    contributes nothing when it has fewer than two lines, when its time
    line lacks the separator, or when one of the two times is NaN.  The
    empty string gives no cue.  In a file of five blocks (one line only; a
    good cue; no separator; times that are not numbers; a good cue with an
    index) exactly the two good cues come out. *)
Theorem parseSRT_never_throws :
  (forall content,
     parseSRT content
     = Ok (flat_map block_cues (split NLNL (normalize content)))) /\
  (forall block,
     (List.length (block_lines block) < 2 -> block_cues block = []) /\
     (forall tl, time_line block = Some tl ->
                 includes "-->" tl = false -> block_cues block = []) /\
     (forall tl, time_line block = Some tl ->
                 parseTime (side tl 0) = Ok NaN \/
                 parseTime (side tl 1) = Ok NaN ->
                 block_cues block = [])) /\
  parseSRT "" = Ok [] /\
  parseSRT ("just one line" ++ NLNL
            ++ "00:01:02,500 --> 00:01:05,000" ++ NL ++ "Hello" ++ NLNL
            ++ "00:00:06,000 00:00:07,000" ++ NL ++ "no arrow" ++ NLNL
            ++ "aa:bb:cc,ddd --> 00:00:09,000" ++ NL ++ "bad time" ++ NLNL
            ++ "5" ++ NL ++ "00:00:10.000 --> 00:00:11.250" ++ NL ++ "Bye")
  = Ok [ {| start := Fin 62.500; end_ := Fin 65.000; text := "Hello" |};
         {| start := Fin 10.000; end_ := Fin 11.250; text := "Bye" |} ].
Proof.
  split; [exact parseSRT_blocks|].
  split; [|split; reflexivity].
  intros block.
  assert (Hshort : List.length (block_lines block) < 2 ->
                   block_cues block = []).
  { intros H. unfold block_cues. rewrite (parseBlock_short _ H).
    reflexivity. }
  split; [exact Hshort|].
  split.
  - intros tl Htl Hinc.
    destruct (Nat.lt_ge_cases (List.length (block_lines block)) 2)
      as [Hl|Hl]; [exact (Hshort Hl)|].
    unfold block_cues. rewrite (parseBlock_unfold block tl Hl Htl).
    rewrite Hinc. destruct tl; reflexivity.
  - intros tl Htl Hnan.
    destruct (Nat.lt_ge_cases (List.length (block_lines block)) 2)
      as [Hl|Hl]; [exact (Hshort Hl)|].
    unfold block_cues. rewrite (parseBlock_unfold block tl Hl Htl).
    destruct tl as [|c r]; [reflexivity|].
    destruct (negb (includes "-->" (String c r))); [reflexivity|].
    destruct Hnan as [H|H].
    + rewrite H. cbn [bind].
      destruct (parseTime_total (side (String c r) 1)) as [en ->].
      reflexivity.
    + destruct (parseTime_total (side (String c r) 0)) as [st ->].
      rewrite H. cbn [bind isNaN negb andb].
      rewrite andb_false_r. reflexivity.
Qed.

(** The block ["aa:bb:cc,ddd --> 00:00:09,000"], whose start is NaN. *)
Lemma parseSRT_never_throws_witness :
  block_cues ("aa:bb:cc,ddd --> 00:00:09,000" ++ NL ++ "bad time") = [].
Proof.
  refine (proj2 (proj2 (proj1 (proj2 parseSRT_never_throws)
            ("aa:bb:cc,ddd --> 00:00:09,000" ++ NL ++ "bad time")%string))
            "aa:bb:cc,ddd --> 00:00:09,000" eq_refl _).
  left. reflexivity.
Defined.

(** ** Strings of digits *)

Lemma digit_plain c : is_digit c = true -> plain c = true.
Proof.
  destruct c as [[] [] [] [] [] [] [] []]; vm_compute;
    intros H; try reflexivity; discriminate H.
Qed.


Lemma read_sign_digit c r :
  is_digit c = true -> read_sign (String c r) = (false, String c r).
Proof.
  destruct c as [[] [] [] [] [] [] [] []]; vm_compute;
    intros H; try discriminate H; reflexivity.
Qed.

Lemma every_app p a b : every p (a ++ b) = every p a && every p b.
Proof.
  induction a as [|c a IH]; simpl; [reflexivity|].
  rewrite IH, andb_assoc. reflexivity.
Qed.

Lemma every_impl (p q : ascii -> bool) s :
  (forall c, p c = true -> q c = true) ->
  every p s = true -> every q s = true.
Proof.
  intros Hpq. induction s as [|c r IH]; simpl; [reflexivity|].
  intros H. apply andb_prop in H. destruct H as [Hc Hr].
  rewrite (Hpq c Hc), (IH Hr). reflexivity.
Qed.

Lemma match_digits_cons s :
  match_digits s = true ->
  exists c r, s = String c r /\ is_digit c = true /\ all_digits r = true.
Proof.
  unfold match_digits, all_digits. destruct s as [|c r]; simpl;
    [discriminate|].
  intros H. apply andb_prop in H. destruct H as [Hc Hr].
  exists c, r. auto.
Qed.

Lemma match_digits_all s : match_digits s = true -> all_digits s = true.
Proof.
  unfold match_digits. intros H. apply andb_prop in H. apply H.
Qed.

Lemma span_digits_all s :
  all_digits s = true -> span_digits s = (s, "").
Proof.
  unfold all_digits. induction s as [|c r IH]; simpl; [reflexivity|].
  intros H. apply andb_prop in H. destruct H as [Hc Hr].
  rewrite Hc, (IH Hr). reflexivity.
Qed.


Lemma trimStart_plain c r :
  is_ws c = false -> trimStart (String c r) = String c r.
Proof. intros H. simpl. rewrite H. reflexivity. Qed.

Lemma trimEnd_no_ws s :
  every (fun c => negb (is_ws c)) s = true -> trimEnd s = s.
Proof.
  induction s as [|c r IH]; simpl; [reflexivity|].
  intros H. apply andb_prop in H. destruct H as [Hc Hr].
  rewrite (IH Hr). apply negb_true_iff in Hc. rewrite Hc. reflexivity.
Qed.

Lemma trim_no_ws s :
  every (fun c => negb (is_ws c)) s = true -> trim s = s.
Proof.
  intros H. unfold trim. destruct s as [|c r]; [reflexivity|].
  rewrite trimStart_plain; [apply trimEnd_no_ws, H|].
  simpl in H. apply andb_prop in H. apply negb_true_iff. apply H.
Qed.

Lemma plain_no_ws c : plain c = true -> negb (is_ws c) = true.
Proof.
  unfold plain. intros H. repeat (apply andb_prop in H; destruct H as [H _]).
  exact H.
Qed.

Lemma digits_no_ws s :
  all_digits s = true -> every (fun c => negb (is_ws c)) s = true.
Proof.
  apply every_impl. intros c Hc. apply plain_no_ws, digit_plain, Hc.
Qed.

(** On a string of digits [Number] takes the decimal branch. *)
Lemma Number_decimal_branch s :
  match_digits s = true -> Number s = decimal_literal s.
Proof.
  intros H. destruct (match_digits_cons s H) as (c & r & -> & Hc & Hr).
  unfold Number. cbv zeta.
  rewrite (trim_no_ws _ (digits_no_ws _ (match_digits_all _ H))).
  clear H.
  destruct c as [[] [] [] [] [] [] [] []];
    try discriminate Hc; try reflexivity.
  destruct r as [|d r']; [reflexivity|].
  unfold all_digits in Hr. simpl in Hr.
  apply andb_prop in Hr. destruct Hr as [Hd _].
  destruct d as [[] [] [] [] [] [] [] []];
    try discriminate Hd; reflexivity.
Qed.

Lemma Number_digits s :
  match_digits s = true ->
  exists q, Number s = Fin q /\ (q == inject_Z (digits_Z s))%Q.
Proof.
  intros H. rewrite (Number_decimal_branch s H).
  destruct (match_digits_cons s H) as (c & r & -> & Hc & Hr).
  unfold decimal_literal. rewrite (read_sign_digit c r Hc).
  assert (Hi : (String c r =? "Infinity")%string = false).
  { simpl. destruct c as [[] [] [] [] [] [] [] []];
      try discriminate Hc; reflexivity. }
  rewrite Hi. unfold unsigned_decimal.
  rewrite (span_digits_all _ (match_digits_all _ H)).
  cbn [span_digits String.eqb andb String.length read_exponent].
  eexists. split; [reflexivity|].
  cbn -[digits_Z inject_Z Qmult Z.mul Z.add].
  change (digits_Z "") with 0%Z.
  replace (digits_Z (String c r) * 1 + 0)%Z with (digits_Z (String c r))
    by lia.
  unfold Qpower. simpl. ring.
Qed.

(** The decimal value the host computes for a run of digits is the one
    [decimal] reads off the code units. *)
Lemma digit_code c :
  is_digit c = true ->
  exists d, hex_val c = Some d /\ (d <? 10)%N = true /\
            Z.of_N d = (Z.of_nat (nat_of_ascii c) - 48)%Z.
Proof.
  destruct c as [[] [] [] [] [] [] [] []]; vm_compute;
    intros H; try discriminate H; eexists; repeat split; reflexivity.
Qed.

Lemma radix_val_decimal s acc :
  all_digits s = true ->
  exists n, radix_val 10 acc s = Some n /\
            Z.of_N n = decimal (Z.of_N acc) s.
Proof.
  unfold all_digits. revert acc.
  induction s as [|c r IH]; intros acc; cbn [radix_val decimal every].
  - eexists; split; reflexivity.
  - intros H. apply andb_prop in H. destruct H as [Hc Hr].
    destruct (digit_code c Hc) as (d & -> & -> & Ed).
    destruct (IH (acc * 10 + d)%N Hr) as (n & -> & En).
    exists n. split; [reflexivity|]. rewrite En. f_equal. lia.
Qed.

Lemma digits_Z_value s : all_digits s = true -> digits_Z s = value s.
Proof.
  intros H. unfold digits_Z, value.
  destruct (radix_val_decimal s 0 H) as (n & -> & En). exact En.
Qed.


(** ** Splitting and trimming *)

Lemma append_assoc a b c : ((a ++ b) ++ c)%string = (a ++ (b ++ c))%string.
Proof.
  induction a as [|x a IH]; simpl; [reflexivity|].
  rewrite IH. reflexivity.
Qed.

Lemma append_nil_r a : (a ++ "")%string = a.
Proof.
  induction a as [|x a IH]; simpl; [reflexivity|].
  rewrite IH. reflexivity.
Qed.

Lemma prefix_app s r : prefix s (s ++ r) = true.
Proof.
  induction s as [|c s IH]; simpl; [destruct r; reflexivity|].
  destruct (ascii_dec c c); [exact IH|congruence].
Qed.


Lemma split_from_skip sep a r :
  split_from sep (String.length a) (a ++ r) = split_from sep 0 r.
Proof. induction a as [|c a IH]; simpl; [reflexivity|exact IH]. Qed.

Lemma split_at_sep f t r :
  split (String f t) (String f t ++ r) = "" :: split (String f t) r.
Proof.
  unfold split.
  change (String f t ++ r)%string with (String f (t ++ r)).
  cbn [split_from].
  change (String f (t ++ r)) with (String f t ++ r)%string.
  rewrite prefix_app.
  replace (String.length (String f t) - 1) with (String.length t)
    by (simpl; lia).
  rewrite split_from_skip. reflexivity.
Qed.

(** A run [l] free of the first code unit of the separator only extends
    the first piece. *)
Lemma split_prepend f t l r p ps :
  every (fun c => negb (c =? f)%char) l = true ->
  split (String f t) r = p :: ps ->
  split (String f t) (l ++ r) = (l ++ p)%string :: ps.
Proof.
  intros Hl Hr. unfold split in *.
  induction l as [|c l IH]; simpl in *; [exact Hr|].
  apply andb_prop in Hl. destruct Hl as [Hc Hl].
  apply negb_true_iff in Hc.
  destruct (ascii_dec f c) as [->|_].
  - rewrite Ascii.eqb_refl in Hc. discriminate.
  - rewrite (IH Hl). reflexivity.
Qed.

Lemma split_piece f t l r :
  every (fun c => negb (c =? f)%char) l = true ->
  split (String f t) (l ++ String f t ++ r) = l :: split (String f t) r.
Proof.
  intros Hl.
  rewrite (split_prepend f t l _ "" (split (String f t) r) Hl).
  - rewrite append_nil_r. reflexivity.
  - apply split_at_sep.
Qed.

Lemma split_last f t l :
  every (fun c => negb (c =? f)%char) l = true ->
  split (String f t) l = [l].
Proof.
  intros Hl. rewrite <- (append_nil_r l) at 1.
  rewrite (split_prepend f t l "" "" [] Hl); [|reflexivity].
  rewrite append_nil_r. reflexivity.
Qed.

Lemma split_class_prepend p l r x xs :
  every (fun c => negb (p c)) l = true ->
  split_class p r = x :: xs ->
  split_class p (l ++ r) = (l ++ x)%string :: xs.
Proof.
  intros Hl Hr. induction l as [|c l IH]; simpl in *; [exact Hr|].
  apply andb_prop in Hl. destruct Hl as [Hc Hl].
  apply negb_true_iff in Hc. rewrite Hc, (IH Hl). reflexivity.
Qed.

Lemma split_class_two p l c r :
  every (fun c => negb (p c)) l = true -> p c = true ->
  every (fun c => negb (p c)) r = true ->
  split_class p (l ++ String c r) = [l; r].
Proof.
  intros Hl Hc Hr.
  rewrite (split_class_prepend p l _ "" [r] Hl).
  - rewrite append_nil_r. reflexivity.
  - simpl. rewrite Hc. f_equal.
    rewrite <- (append_nil_r r) at 1.
    rewrite (split_class_prepend p r "" "" [] Hr); [|reflexivity].
    rewrite append_nil_r. reflexivity.
Qed.





Lemma replace_crlf_id s :
  every (fun c => negb (c =? CR)%char) s = true -> replace_crlf s = s.
Proof.
  induction s as [|c r IH]; cbn [replace_crlf every]; [reflexivity|].
  intros H. apply andb_prop in H. destruct H as [Hc Hr].
  apply negb_true_iff in Hc. rewrite Hc, (IH Hr). reflexivity.
Qed.

Lemma replace_cr_id s :
  every (fun c => negb (c =? CR)%char) s = true -> replace_cr s = s.
Proof.
  induction s as [|c r IH]; simpl; [reflexivity|].
  intros H. apply andb_prop in H. destruct H as [Hc Hr].
  apply negb_true_iff in Hc. rewrite Hc, (IH Hr). reflexivity.
Qed.

Lemma normalize_id s :
  every (fun c => negb (c =? CR)%char) s = true -> normalize s = s.
Proof.
  intros H. unfold normalize. rewrite (replace_crlf_id s H).
  apply replace_cr_id, H.
Qed.

(** ** Lines joined by line feeds *)

Lemma join_cons l l2 ls :
  join NL (l :: l2 :: ls) = (l ++ NL ++ join NL (l2 :: ls))%string.
Proof. reflexivity. Qed.

Lemma every_join p ls :
  p LF = true -> Forall (fun l => every p l = true) ls ->
  every p (join NL ls) = true.
Proof.
  intros Hp H. induction H as [|l ls Hl Hls IH]; [reflexivity|].
  destruct ls as [|l2 ls]; [exact Hl|].
  rewrite join_cons, !every_app, Hl, IH. simpl. rewrite Hp. reflexivity.
Qed.


Lemma join_head_nonempty l ls :
  l <> "" -> exists c r, join NL (l :: ls) = String c r /\
                         exists l', l = String c l'.
Proof.
  intros Hl. destruct l as [|c l']; [congruence|].
  destruct ls as [|l2 ls].
  - exists c, l'. split; [reflexivity|eauto].
  - exists c, (l' ++ NL ++ join NL (l2 :: ls))%string.
    split; [reflexivity|eauto].
Qed.

Lemma split_cons_no_sep sep c r :
  prefix sep (String c r) = false ->
  split sep (String c r) = push_front c (split sep r).
Proof.
  intros H. unfold split. cbn [split_from]. rewrite H. reflexivity.
Qed.

(** A text without an empty line is a single block. *)
Lemma split_blank_free ls :
  ls <> [] ->
  Forall (fun l => l <> "" /\ every no_LF l = true) ls ->
  split NLNL (join NL ls) = [join NL ls].
Proof.
  intros Hne H. induction H as [|l ls [Hl0 Hl] Hls IH]; [congruence|].
  destruct ls as [|l2 ls].
  - apply (split_last LF NL l Hl).
  - rewrite join_cons.
    inversion Hls as [|? ? [Hl2 Hl2'] _]; subst.
    destruct (join_head_nonempty l2 ls Hl2) as (c & r & Hj & l' & ->).
    apply (split_prepend LF NL l _ _ [] Hl).
    rewrite Hj in *.
    assert (Hc : (c =? LF)%char = false).
    { simpl in Hl2'. apply andb_prop in Hl2'. destruct Hl2' as [Hc _].
      apply negb_true_iff in Hc. exact Hc. }
    change (NL ++ String c r)%string with (String LF (String c r)).
    change (String LF NL) with NLNL.
    rewrite split_cons_no_sep.
    + rewrite IH by discriminate. reflexivity.
    + unfold NLNL. cbn [prefix].
      destruct (ascii_dec LF LF); [|congruence].
      destruct (ascii_dec LF c) as [<-|]; [|reflexivity].
      rewrite Ascii.eqb_refl in Hc. discriminate.
Qed.


(** ** What the tag expression removes *)

Lemma run_not_gt_closed t b :
  every no_gt t = true -> run_not_gt (t ++ String ">" b) = String.length t.
Proof.
  induction t as [|c t IH]; simpl; [reflexivity|].
  intros H. apply andb_prop in H. destruct H as [Hc Ht].
  apply negb_true_iff in Hc. rewrite Hc, (IH Ht). reflexivity.
Qed.

Lemma get_closed t b :
  String.get (String.length t) (t ++ String ">" b) = Some ">"%char.
Proof. induction t as [|c t IH]; simpl; [reflexivity|exact IH]. Qed.

Lemma tag_body_closed t b :
  t <> "" -> every no_gt t = true ->
  tag_body (t ++ String ">" b) = Some (S (String.length t)).
Proof.
  intros Hne Ht. unfold tag_body. rewrite (run_not_gt_closed t b Ht).
  destruct t as [|c t]; [congruence|].
  pose proof (get_closed (String c t) b) as G.
  cbn [String.length] in *. rewrite G. reflexivity.
Qed.

Lemma tag_body_empty b : tag_body (String ">" b) = None.
Proof. reflexivity. Qed.

(** A tag [<t>] with a non-empty body free of ['>'] is matched whole. *)
Lemma tag_at_closed t b :
  t <> "" -> every no_gt t = true ->
  tag_at (String "<" (t ++ String ">" b)) = Some (String.length t + 2).
Proof.
  intros Hne Ht. destruct t as [|c t]; [congruence|].
  pose proof (tag_body_closed (String c t) b Hne Ht) as Hwhole.
  destruct (Ascii.eqb_spec c "/") as [->|Hc].
  - cbn [tag_at append]. destruct t as [|d t].
    + reflexivity.
    + rewrite tag_body_closed; [|discriminate|].
      * cbn [String.length]. f_equal. lia.
      * cbn [every] in Ht. apply andb_prop in Ht. apply Ht.
  - transitivity (option_map S (tag_body (String c t ++ String ">" b))).
    + destruct c as [[] [] [] [] [] [] [] []];
        try reflexivity; congruence.
    + rewrite Hwhole. cbn [option_map String.length]. f_equal. lia.
Qed.

Lemma strip_from_skip t b :
  strip_from (String.length t) (t ++ b) = strip_from 0 b.
Proof. induction t as [|c t IH]; simpl; [reflexivity|exact IH]. Qed.

Lemma strip_from_no_lt c r :
  (c =? "<")%char = false ->
  strip_from 0 (String c r) = String c (strip_from 0 r).
Proof.
  intros Hc. cbn [strip_from].
  replace (tag_at (String c r)) with (@None nat); [reflexivity|].
  destruct c as [[] [] [] [] [] [] [] []]; try reflexivity; discriminate Hc.
Qed.

(** Text without ['<'] is kept as it is. *)
Lemma strip_tags_no_lt s : every no_lt s = true -> strip_tags s = s.
Proof.
  unfold strip_tags. induction s as [|c r IH]; [reflexivity|].
  cbn [every]. intros H. apply andb_prop in H. destruct H as [Hc Hr].
  apply negb_true_iff in Hc.
  rewrite (strip_from_no_lt c r Hc), (IH Hr). reflexivity.
Qed.

(** After text without ['<'], a tag [<t>] is removed and stripping goes on
    behind it. *)
Lemma strip_tags_tag a t b :
  every no_lt a = true -> t <> "" -> every no_gt t = true ->
  strip_tags (a ++ String "<" (t ++ String ">" b))
  = (a ++ strip_tags b)%string.
Proof.
  intros Ha Hne Ht. unfold strip_tags.
  induction a as [|c a IH].
  - cbn [append strip_from]. rewrite (tag_at_closed t b Hne Ht).
    replace (String.length t + 2) with (S (S (String.length t))) by lia.
    change (t ++ String ">" b)%string with (t ++ (String ">" b))%string.
    replace (S (String.length t))
      with (String.length (t ++ ">")%string).
    + replace (t ++ String ">" b)%string with ((t ++ ">") ++ b)%string
        by (rewrite append_assoc; reflexivity).
      apply strip_from_skip.
    + clear. induction t as [|c t IH]; simpl; [reflexivity|].
      rewrite IH. reflexivity.
  - cbn [every] in Ha. apply andb_prop in Ha. destruct Ha as [Hc Ha].
    apply negb_true_iff in Hc.
    change ((String c a ++ String "<" (t ++ String ">" b))%string)
      with (String c (a ++ String "<" (t ++ String ">" b))).
    rewrite (strip_from_no_lt c _ Hc), (IH Ha). reflexivity.
Qed.

(** ** The tag expression against [Stripped] *)


Lemma tag_at_not_lt c r : (c =? "<")%char = false -> tag_at (String c r) = None.
Proof.
  intros Hc.
  destruct c as [[] [] [] [] [] [] [] []]; try reflexivity; discriminate Hc.
Qed.

Lemma tag_at_no_slash d r :
  d <> "/"%char ->
  tag_at (String "<" (String d r)) = option_map S (tag_body (String d r)).
Proof.
  intros Hd.
  destruct d as [[] [] [] [] [] [] [] []]; try reflexivity; congruence.
Qed.

(** The optional slash changes nothing: with or without it the match runs
    to the same place. *)
Lemma tag_at_lt r : tag_at (String "<" r) = option_map S (tag_body r).
Proof.
  destruct r as [|d r']; [reflexivity|].
  destruct (Ascii.eqb_spec d "/") as [->|Hd]; [|apply tag_at_no_slash, Hd].
  cbn [tag_at]. unfold tag_body. cbn [run_not_gt].
  change ("/" =? ">")%char with false. cbv iota.
  destruct (run_not_gt r') as [|m]; [reflexivity|].
  cbn [String.get]. change (S m) with (S m).
  destruct (String.get (S m) r'); reflexivity.
Qed.

Lemma run_not_gt_split r :
  exists body rest,
    r = (body ++ rest)%string /\ every no_gt body = true /\
    String.length body = run_not_gt r /\
    (rest = "" \/ exists rest', rest = String ">" rest').
Proof.
  induction r as [|c r IH].
  - exists "", "". repeat split. left. reflexivity.
  - cbn [run_not_gt]. destruct (c =? ">")%char eqn:Ec.
    + apply Ascii.eqb_eq in Ec. subst c.
      exists "", (String ">" r). repeat split. right. eauto.
    + destruct IH as (body & rest & E & Hb & Hl & Hr).
      exists (String c body), rest. cbn [append every String.length].
      unfold no_gt at 1. rewrite Ec, Hb, Hl, <- E. repeat split. exact Hr.
Qed.

Lemma get_end body : String.get (String.length body) body = None.
Proof. induction body as [|c b IH]; simpl; [reflexivity|exact IH]. Qed.

(** Where [[^>]+(>|$)] matches, and how far. *)
Lemma tag_body_shape r :
  match tag_body r with
  | None => r = "" \/ exists r', r = String ">" r'
  | Some k =>
      exists body,
        body <> "" /\ every no_gt body = true /\
        ((r = body /\ k = String.length body) \/
         (exists rest, r = (body ++ String ">" rest)%string /\
                       k = S (String.length body)))
  end.
Proof.
  destruct (run_not_gt_split r) as (body & rest & E & Hb & Hl & Hr).
  unfold tag_body. rewrite <- Hl.
  destruct body as [|c b].
  - cbn [String.length]. subst r. exact Hr.
  - cbn [String.length].
    change (S (String.length b)) with (String.length (String c b)).
    destruct Hr as [->|[rest' ->]].
    + rewrite append_nil_r in E. subst r. rewrite get_end.
      exists (String c b). split; [discriminate|]. split; [exact Hb|].
      left. split; reflexivity.
    + subst r. rewrite get_closed.
      exists (String c b). split; [discriminate|]. split; [exact Hb|].
      right. exists rest'. split; reflexivity.
Qed.

Lemma strip_keep c rest :
  c <> "<"%char \/ rest = "" \/ (exists r, rest = String ">" r) ->
  strip_from 0 (String c rest) = String c (strip_from 0 rest).
Proof.
  intros H. destruct (c =? "<")%char eqn:Ec.
  - apply Ascii.eqb_eq in Ec. subst c.
    destruct H as [H|[->|[r ->]]]; [congruence|reflexivity|reflexivity].
  - apply strip_from_no_lt, Ec.
Qed.

Lemma strip_from_all body : strip_from (String.length body) body = "".
Proof. induction body as [|c b IH]; simpl; [reflexivity|exact IH]. Qed.

Lemma strip_unclosed body :
  body <> "" -> every no_gt body = true -> strip_tags (String "<" body) = "".
Proof.
  intros Hne Hb. unfold strip_tags. cbn [strip_from]. rewrite tag_at_lt.
  pose proof (tag_body_shape body) as Hs.
  destruct (tag_body body) as [k|].
  - destruct Hs as (b & _ & Hb' & [[<- ->]|(rest & E & _)]).
    + cbn [option_map]. apply strip_from_all.
    + exfalso. rewrite E, every_app in Hb. cbn [every] in Hb.
      rewrite andb_false_r in Hb. discriminate Hb.
  - exfalso. destruct Hs as [->|[r' ->]]; [congruence|discriminate Hb].
Qed.



(** [Stripped] describes one result only. *)
Lemma Stripped_strip_tags s out : Stripped s out -> out = strip_tags s.
Proof.
  induction 1 as [|body rest out Hne Hb _ IH|body Hne Hb|c rest out Hc _ IH].
  - reflexivity.
  - rewrite IH. symmetry. apply (strip_tags_tag "" body rest); auto.
  - symmetry. apply strip_unclosed; assumption.
  - unfold strip_tags. rewrite (strip_keep c rest Hc), IH. reflexivity.
Qed.

Lemma Stripped_functional s a b : Stripped s a -> Stripped s b -> a = b.
Proof.
  intros Ha Hb. rewrite (Stripped_strip_tags s a Ha).
  symmetry. apply Stripped_strip_tags, Hb.
Qed.

(** ** Well-formed blocks *)


Lemma digits_every p s :
  (forall c, plain c = true -> p c = true) ->
  match_digits s = true -> every p s = true.
Proof.
  intros Hp H. apply (every_impl is_digit).
  - intros c Hc. apply Hp, digit_plain, Hc.
  - apply match_digits_all, H.
Qed.









Lemma parseTime_body t :
  t <> "" ->
  parseTime (Some t) =
  (let parts := split_class comma_or_dot t in
   let msStr := nth_error parts 1 in
   hms <- deref (nth_error parts 0) ;;
   let hms_parts := map Number (split ":" hms) in
   let h := to_number (nth_error hms_parts 0) in
   let m := to_number (nth_error hms_parts 1) in
   let s := to_number (nth_error hms_parts 2) in
   let ms := parseInt (match msStr with
                       | None | Some EmptyString => "0"
                       | Some x => x
                       end) in
   Ok (add (add (add (mul h (of_Z 3600)) (mul m (of_Z 60))) s)
           (div ms (of_Z 1000)))).
Proof. destruct t; [congruence|reflexivity]. Qed.
























(** ** Line ends *)

Lemma replace_crlf_to_crlf s :
  every no_CR s = true -> replace_crlf (to_crlf s) = s.
Proof.
  induction s as [|c r IH]; [reflexivity|].
  cbn [every to_crlf]. intros H. apply andb_prop in H.
  destruct H as [Hc Hr]. unfold no_CR in Hc. apply negb_true_iff in Hc.
  destruct (c =? LF)%char eqn:El.
  - apply Ascii.eqb_eq in El. subst c.
    cbn [replace_crlf]. rewrite !Ascii.eqb_refl, (IH Hr). reflexivity.
  - cbn [replace_crlf]. rewrite Hc, (IH Hr). reflexivity.
Qed.

Lemma replace_crlf_no_LF s :
  every no_LF s = true -> replace_crlf s = s.
Proof.
  induction s as [|c r IH]; [reflexivity|].
  cbn [every]. intros H. apply andb_prop in H. destruct H as [_ Hr].
  cbn [replace_crlf]. rewrite (IH Hr).
  destruct (c =? CR)%char; [|reflexivity].
  destruct r as [|d r']; [reflexivity|].
  cbn [every] in Hr. apply andb_prop in Hr. destruct Hr as [Hd _].
  unfold no_LF in Hd. apply negb_true_iff in Hd. rewrite Hd. reflexivity.
Qed.

Lemma to_cr_no_LF s : every no_LF (to_cr s) = true.
Proof.
  induction s as [|c r IH]; [reflexivity|].
  cbn [to_cr every]. rewrite IH.
  destruct (c =? LF)%char eqn:E; unfold no_LF; [reflexivity|].
  rewrite E. reflexivity.
Qed.

Lemma replace_cr_to_cr s :
  every no_CR s = true -> replace_cr (to_cr s) = s.
Proof.
  induction s as [|c r IH]; [reflexivity|].
  cbn [every to_cr replace_cr]. intros H. apply andb_prop in H.
  destruct H as [Hc Hr]. rewrite (IH Hr). unfold no_CR in Hc.
  apply negb_true_iff in Hc.
  destruct (c =? LF)%char eqn:El.
  - apply Ascii.eqb_eq in El. subst c. reflexivity.
  - rewrite Hc. reflexivity.
Qed.

(** Whatever the line ends a text is written with, [normalize] gives the
    text with line feeds. *)
Lemma normalize_written e s :
  every no_CR s = true -> normalize (written e s) = s.
Proof.
  intros H. destruct e; cbn [written].
  - apply normalize_id, H.
  - unfold normalize. rewrite (replace_crlf_to_crlf s H).
    apply replace_cr_id, H.
  - unfold normalize. rewrite (replace_crlf_no_LF _ (to_cr_no_LF s)).
    apply replace_cr_to_cr, H.
Qed.

(** ** Blocks between empty lines *)








(** ** One block, and the white space around it *)







(** ** The value of the time expression *)









(** ** A file of blocks *)






(** ** Order on numbers *)

Lemma lt_bounded_above a d : lt a d = true -> bounded_above a.
Proof. destruct a, d; simpl; intros H; try discriminate H; exact I. Qed.

Lemma le_not_lt a d : le d a = true -> lt a d = false.
Proof.
  destruct a, d; simpl; intros H; try discriminate H; try reflexivity.
  unfold Qlt_bool. rewrite H. reflexivity.
Qed.

Lemma le_trans a b c : le a b = true -> le b c = true -> le a c = true.
Proof.
  destruct a, b, c; simpl; intros H1 H2;
    try discriminate H1; try discriminate H2; try reflexivity.
  apply Qle_bool_iff in H1, H2. apply Qle_bool_iff.
  eapply Qle_trans; eassumption.
Qed.

Lemma le_total a b :
  bounded_above a -> bounded_above b -> le a b = false -> le b a = true.
Proof.
  destruct a, b; simpl; intros Ha Hb H;
    try contradiction; try discriminate H; try reflexivity.
  apply Qle_bool_iff. apply Qlt_le_weak. apply Qnot_le_lt.
  intros Hle. apply Qle_bool_iff in Hle. congruence.
Qed.

(** On numbers bounded above, the sign of [a - b], read as
    [Array.prototype.sort] reads it, decides [a <= b]. *)
Lemma sort_compare_sub a b :
  bounded_above a -> bounded_above b ->
  gt (sort_compare sub a b) (Fin 0%Q) = negb (le a b).
Proof.
  destruct a as [| | |q], b as [| | |r]; simpl; intros Ha Hb;
    try contradiction; try reflexivity.
  unfold sort_compare, sub, gt. simpl. unfold Qlt_bool. f_equal.
  apply eq_true_iff_eq. rewrite !Qle_bool_iff.
  split; intros H; lra.
Qed.

(** ** C3: the active chapter list *)

Lemma insert_perm {A} (f : A -> A -> number) x l :
  Permutation (insert f x l) (x :: l).
Proof.
  induction l as [|y l IH]; cbn [insert]; [apply Permutation_refl|].
  destruct (gt (sort_compare f x y) (Fin 0%Q)).
  - eapply perm_trans; [apply perm_skip, IH|apply perm_swap].
  - apply Permutation_refl.
Qed.

Lemma sort_perm {A} (f : A -> A -> number) l : Permutation (sort f l) l.
Proof.
  induction l as [|x l IH]; cbn [sort]; [constructor|].
  eapply perm_trans; [apply insert_perm|apply perm_skip, IH].
Qed.

Lemma insert_sorted x l :
  bounded_above (startTime x) ->
  Forall (fun c => bounded_above (startTime c)) l ->
  StronglySorted starts_le l ->
  StronglySorted starts_le (insert by_startTime x l).
Proof.
  intros Hx Hl Hs. induction Hs as [|y l Hs IH Hy]; cbn [insert].
  - repeat constructor.
  - inversion Hl as [|? ? Hby Hl']; subst.
    change (sort_compare by_startTime x y)
      with (sort_compare sub (startTime x) (startTime y)).
    rewrite (sort_compare_sub _ _ Hx Hby).
    destruct (le (startTime x) (startTime y)) eqn:E; cbn [negb].
    + constructor; [constructor; assumption|].
      constructor; [exact E|].
      eapply Forall_impl; [|exact Hy].
      intros z Hz. unfold starts_le in *. eapply le_trans; eassumption.
    + constructor; [apply IH, Hl'|].
      eapply Permutation_Forall;
        [apply Permutation_sym, insert_perm|].
      constructor; [|exact Hy].
      apply le_total; assumption.
Qed.

Lemma sort_sorted l :
  Forall (fun c => bounded_above (startTime c)) l ->
  StronglySorted starts_le (sort by_startTime l).
Proof.
  induction 1 as [|x l Hx Hl IH]; cbn [sort]; [constructor|].
  apply insert_sorted; [exact Hx| |exact IH].
  eapply Permutation_Forall; [apply Permutation_sym, sort_perm|exact Hl].
Qed.

(** C3. For a chapter list [cs] and a duration [d] other than 0, the active
    list is a rearrangement of the chapters of [cs] with
    [startTime < d]: it holds exactly those chapters, none with
    [startTime >= d], and it is ascending in [startTime].  Chapters at 0, 60
    and 180 with duration 100 give the starts 0 and 60. *)
Theorem active_chapters_filtered_sorted :
  (forall cs d,
     is_zero d = false ->
     let act := chapters (Some cs) d in
     Permutation act (filter (fun c => lt (startTime c) d) cs) /\
     (forall c, In c act <-> In c cs /\ lt (startTime c) d = true) /\
     (forall c, In c cs -> ge (startTime c) d = true -> ~ In c act) /\
     StronglySorted starts_le act) /\
  map startTime (chapters (Some three_chapters) (of_Z 100))
  = [of_Z 0; of_Z 60].
Proof.
  split; [|reflexivity].
  intros cs d Hd act.
  assert (Hp : Permutation act (filter (fun c => lt (startTime c) d) cs)).
  { unfold act, chapters. rewrite Hd. apply sort_perm. }
  assert (Hin : forall c, In c act <-> In c cs /\ lt (startTime c) d = true).
  { intros c. split; intros Hc.
    - apply (Permutation_in _ Hp) in Hc. apply filter_In in Hc. exact Hc.
    - apply (Permutation_in _ (Permutation_sym Hp)). apply filter_In.
      exact Hc. }
  split; [exact Hp|]. split; [exact Hin|]. split.
  - intros c _ Hge Hc. apply Hin in Hc. destruct Hc as [_ Hlt].
    unfold ge in Hge. rewrite (le_not_lt _ _ Hge) in Hlt. discriminate.
  - unfold act, chapters. rewrite Hd. apply sort_sorted.
    apply Forall_forall. intros c Hc. apply filter_In in Hc.
    eapply lt_bounded_above. exact (proj2 Hc).
Qed.

(** The general statement on the three chapters with duration 100. *)
Lemma active_chapters_filtered_sorted_witness :
  let act := chapters (Some three_chapters) (of_Z 100) in
  Permutation act [chapter_at 0 0; chapter_at 1 60] /\
  StronglySorted starts_le act.
Proof.
  intros act.
  destruct (proj1 active_chapters_filtered_sorted three_chapters (of_Z 100)
                  eq_refl) as (Hp & _ & _ & Hs).
  split; [exact Hp|exact Hs].
Defined.

(** ** Field updates commute with the projections *)

Lemma showControlsTemp_playback w :
  playback (showControlsTemp w) = playback w.
Proof.
  unfold showControlsTemp, clear_controls_timeout; simpl.
  destruct (controlsTimeoutRef (refs w)) as [[|n]|]; reflexivity.
Qed.

Lemma showControlsTemp_videoRef w :
  videoRef (refs (showControlsTemp w)) = videoRef (refs w).
Proof.
  unfold showControlsTemp, clear_controls_timeout; simpl.
  destruct (controlsTimeoutRef (refs w)) as [[|n]|]; reflexivity.
Qed.

Lemma seek_to_positioned t w v :
  videoRef (refs w) = Some v ->
  positioned_at (seek_to t w) t.
Proof.
  intros Hv. unfold positioned_at, seek_to, assign_video_currentTime.
  rewrite Hv. split; reflexivity.
Qed.

Lemma positioned_showControlsTemp w t :
  positioned_at w t -> positioned_at (showControlsTemp w) t.
Proof.
  intros [H1 H2]. split.
  - rewrite showControlsTemp_playback. exact H1.
  - rewrite showControlsTemp_videoRef. exact H2.
Qed.

(** ** [find] on a list split at its first hit *)


Lemma find_none_all {A} (p : A -> bool) (l : list A) :
  Forall (fun x => p x = false) l -> find p l = None.
Proof.
  induction 1 as [|x l Hx _ IH]; simpl; [reflexivity|].
  rewrite Hx. exact IH.
Qed.

(** ** C6: the media error handler *)

Lemma onError_code w v code :
  videoRef (refs w) = Some v -> v_error v = Some code ->
  onError w =
  match code with
  | 1%N => w
  | _ =>
      setIsBuffering false
        (setIsPlaying false
           (setError (Some match code with
                           | 2%N => msg_network
                           | 3%N => msg_decode
                           | 4%N => msg_src_not_supported
                           | _ => msg_unknown
                           end) w))
  end.
Proof. intros Hv He. unfold onError. rewrite Hv, He. reflexivity. Qed.

(** C6. With the element reporting error [code]: code 1 (abort) leaves the
    whole world as it was; codes 2, 3 and 4 set the network, the decode and
    the unsupported-format message, any other code the unknown-failure
    message; the four messages are pairwise different; and whenever the
    code is not 1 the handler leaves [isPlaying] and [isBuffering] false. *)
Theorem onError_categories (w : World) (code : N) :
  video_error w code ->
  (code = 1%N -> onError w = w) /\
  (code = 2%N -> error (playback (onError w)) = Some msg_network) /\
  (code = 3%N -> error (playback (onError w)) = Some msg_decode) /\
  (code = 4%N ->
     error (playback (onError w)) = Some msg_src_not_supported) /\
  (~ In code [1; 2; 3; 4]%N ->
     error (playback (onError w)) = Some msg_unknown) /\
  (code <> 1%N ->
     error (playback (onError w)) <> None /\
     isPlaying (playback (onError w)) = false /\
     isBuffering (playback (onError w)) = false) /\
  NoDup [msg_network; msg_decode; msg_src_not_supported; msg_unknown].
Proof.
  intros (v & Hv & He).
  rewrite (onError_code w v code Hv He).
  repeat split.
  - intros ->. reflexivity.
  - intros ->. reflexivity.
  - intros ->. reflexivity.
  - intros ->. reflexivity.
  - intros Hn.
    destruct code as [|[[[]|[]|]|[[]|[]|]|]]; try reflexivity;
      exfalso; apply Hn; simpl; tauto.
  - destruct code as [|[[[]|[]|]|[[]|[]|]|]]; simpl; try discriminate.
    congruence.
  - destruct code as [|[[[]|[]|]|[[]|[]|]|]]; simpl; try reflexivity.
    congruence.
  - destruct code as [|[[[]|[]|]|[[]|[]|]|]]; simpl; try reflexivity.
    congruence.
  - repeat constructor; simpl; intros H;
      repeat (destruct H as [H|H]; [discriminate H|]); exact H.
Qed.

(** The handler at code 3 on a playing, buffering world. *)
Lemma onError_categories_witness :
  let w := setIsBuffering true
             (setIsPlaying true
                (set_videoRef (Some {| v_currentTime := Fin 0%Q;
                                       v_paused := false;
                                       v_error := Some 3%N |})
                              (mount fresh_video))) in
  error (playback (onError w)) = Some msg_decode /\
  isPlaying (playback (onError w)) = false /\
  isBuffering (playback (onError w)) = false.
Proof.
  intros w.
  assert (He : video_error w 3%N) by (eexists; split; reflexivity).
  destruct (onError_categories w 3%N He) as (_ & _ & H3 & _ & _ & Hs & _).
  split; [exact (H3 eq_refl)|].
  destruct Hs as (_ & Hp & Hb); [discriminate|].
  split; assumption.
Defined.

(** ** C10: an empty active list *)

(** C10. Without chapter metadata, or while the duration is still 0, the
    active chapter list is empty; and whenever it is empty both skip
    operations return the world unchanged, so [skipPrevChapter] does not
    seek to 0. *)
Theorem skip_noop_without_chapters
  (md : option (list Chapter)) (w : World) :
  active None w = [] /\
  (is_zero (duration (playback w)) = true -> active md w = []) /\
  (active md w = [] ->
     skipNextChapter md w = w /\ skipPrevChapter md w = Ok w).
Proof.
  split; [reflexivity|]. split.
  - intros Hz. unfold active, chapters. rewrite Hz.
    destruct md; reflexivity.
  - intros He. unfold skipNextChapter, skipPrevChapter. rewrite He.
    split; reflexivity.
Qed.

(** Right after mounting the duration is 0: with the three chapters nothing
    moves, although playback stands at 100. *)
Lemma skip_noop_without_chapters_witness :
  let w := setCurrentTime (of_Z 100) (mount fresh_video) in
  skipNextChapter (Some three_chapters) w = w /\
  skipPrevChapter (Some three_chapters) w = Ok w.
Proof.
  intros w.
  destruct (skip_noop_without_chapters (Some three_chapters) w)
    as (_ & Hz & Hs).
  apply Hs, Hz. reflexivity.
Defined.

(** ** C4: skipping to the next chapter *)






(** ** C5: skipping to the previous chapter *)

Lemma indexOf_nonneg_or_absent chs c :
  (indexOf chs c = -1 \/ 0 <= indexOf chs c)%Z.
Proof.
  induction chs as [|x chs IH]; simpl; [left; reflexivity|].
  destruct (ref x =? ref c)%nat; [right; lia|].
  destruct (indexOf chs c <? 0)%Z eqn:E; [left; reflexivity|].
  right. apply Z.ltb_ge in E. lia.
Qed.



Lemma find_current_none t chs :
  Forall (fun c => started t c = false) chs ->
  find_current chs t = None.
Proof.
  intros H. unfold find_current.
  apply (find_none_all (started t)). apply Forall_rev. exact H.
Qed.





(** ** C7: the overlay panels *)

Lemma updateStats_panels w : panels (updateStats w) = panels w.
Proof.
  unfold updateStats, when_mounted.
  destruct (videoRef (refs w)); [destruct (mounted (host w))|]; reflexivity.
Qed.

Lemma setShowStats_panels b w :
  panels (setShowStats b w) = panels (setShowStats_cell b w).
Proof.
  unfold setShowStats, stats_effect, stats_cleanup.
  destruct (showStats (panels w)) eqn:Es; destruct b; simpl;
    try reflexivity.
  - destruct (animationFrameId (refs w)); reflexivity.
  - unfold when_mounted.
    destruct (videoRef (refs w)); [simpl; destruct (mounted (host w))|];
      reflexivity.
Qed.

(** Each of the three toggle buttons leaves at most one panel open. *)
Lemma toggle_buttons_exclusive w :
  open_panels (chapterListButton_onClick w) <= 1 /\
  open_panels (statsButton_onClick w) <= 1 /\
  open_panels (settingsButton_onClick w) <= 1.
Proof.
  unfold open_panels, chapterListButton_onClick, statsButton_onClick,
    settingsButton_onClick.
  repeat split; simpl; rewrite ?setShowStats_panels; simpl;
    destruct (showChapterList (panels w)), (showStats (panels w)),
      (showSettings (panels w)); simpl; lia.
Qed.

(** C7 fails on the code.  Open the stats panel, press the subtitle button
    (no track yet, so the file picker opens) and let the chosen file load:
    [handleSubtitleFile] opens the settings panel and leaves the stats
    panel open.  The same happens with the chapter list in place of the
    stats panel, and the chapter title opens the chapter list without
    closing the other two. *)
Theorem import_leaves_other_panel_open :
  let imported := SubtitleLoaded "a.srt" 1700000000000 one_cue_file in
  let w1 := run None [StatsButton; CCButton; imported] (mount fresh_video) in
  let w2 := run None [ChapterListButton; CCButton; imported]
                (mount fresh_video) in
  let w3 := run None [SettingsButton; ChapterTitle] (mount fresh_video) in
  (showStats (panels w1) = true /\ showSettings (panels w1) = true /\
   open_panels w1 = 2) /\
  (showChapterList (panels w2) = true /\ showSettings (panels w2) = true /\
   open_panels w2 = 2) /\
  (showSettings (panels w3) = true /\ showChapterList (panels w3) = true /\
   open_panels w3 = 2).
Proof. vm_compute. repeat split. Qed.

(** ** C8: teardown *)

Lemma filter_self h : filter (fun f => negb (f =? h)%nat) [h] = [].
Proof. simpl. rewrite Nat.eqb_refl. reflexivity. Qed.

Lemma updateStats_loop w :
  frames (host w) = [] ->
  exists h, animationFrameId (refs (updateStats w)) = Some h /\
            frames (host (updateStats w)) = [h].
Proof.
  intros Hf. unfold updateStats, when_mounted.
  destruct (videoRef (refs w)); [destruct (mounted (host w))|];
    simpl; rewrite Hf; eexists; split; reflexivity.
Qed.

Lemma setShowStats_same b w :
  showStats (panels w) = b -> setShowStats b w = setShowStats_cell b w.
Proof.
  intros E. unfold setShowStats. rewrite E, Bool.eqb_reflx. reflexivity.
Qed.

Lemma setShowStats_off w :
  showStats (panels w) = true ->
  setShowStats false w =
  cancelAnimationFrame (animationFrameId (refs w)) (setShowStats_cell false w).
Proof.
  intros E. unfold setShowStats, stats_effect, stats_cleanup. rewrite E.
  simpl. destruct (animationFrameId (refs w)); reflexivity.
Qed.

Lemma setShowStats_on w :
  showStats (panels w) = false ->
  setShowStats true w =
  updateStats (set_animationFrameId None (setShowStats_cell true w)).
Proof.
  intros E. unfold setShowStats, stats_effect. rewrite E. reflexivity.
Qed.

Lemma setShowStats_loop_inv b w : loop_inv w -> loop_inv (setShowStats b w).
Proof.
  unfold loop_inv. intros H.
  destruct (showStats (panels w)) eqn:Es; destruct b.
  - rewrite (setShowStats_same true w Es). simpl. exact H.
  - rewrite (setShowStats_off w Es). destruct H as (h & Ha & Hf).
    rewrite Ha. simpl. rewrite Hf. apply filter_self.
  - rewrite (setShowStats_on w Es). rewrite updateStats_panels.
    cbn [showStats panels set_animationFrameId setShowStats_cell
         on_refs on_panels].
    apply (updateStats_loop
             (set_animationFrameId None (setShowStats_cell true w))).
    exact H.
  - rewrite (setShowStats_same false w Es). simpl. exact H.
Qed.

Lemma loop_inv_congr w w' :
  showStats (panels w') = showStats (panels w) ->
  animationFrameId (refs w') = animationFrameId (refs w) ->
  frames (host w') = frames (host w) ->
  loop_inv w -> loop_inv w'.
Proof. unfold loop_inv. intros -> -> ->. trivial. Qed.

Lemma fire_frame_loop_inv h w : loop_inv w -> loop_inv (fire_frame h w).
Proof.
  unfold loop_inv, fire_frame. intros H.
  destruct (existsb (Nat.eqb h) (frames (host w))) eqn:Ex; [|exact H].
  rewrite updateStats_panels. simpl.
  destruct (showStats (panels w)).
  - destruct H as (h' & Ha & Hf). rewrite Hf in Ex. simpl in Ex.
    rewrite orb_false_r in Ex. apply Nat.eqb_eq in Ex. subst h'.
    apply (updateStats_loop
             (set_frames (filter (fun f => negb (f =? h)%nat)) w)).
    simpl. rewrite Hf. apply filter_self.
  - rewrite H in Ex. discriminate.
Qed.

Ltac keep_loop :=
  match goal with
  | H : loop_inv ?w |- loop_inv _ =>
      refine (loop_inv_congr w _ _ _ _ H); simpl; try reflexivity;
      destruct (controlsTimeoutRef (refs w)) as [[|?]|]; reflexivity
  end.

Lemma showControlsTemp_loop_inv w :
  loop_inv w -> loop_inv (showControlsTemp w).
Proof.
  intros H. unfold showControlsTemp, clear_controls_timeout. keep_loop.
Qed.

(** The invariant of the stats loop holds after mounting and is kept by
    every event short of unmounting. *)
Lemma step_loop_inv md e w :
  e <> Unmount -> loop_inv w -> loop_inv (step md e w).
Proof.
  intros Hne H. destruct e; simpl; try congruence.
  - unfold chapterListButton_onClick.
    refine (loop_inv_congr (setShowStats false
              (setShowChapterList (negb (showChapterList (panels w))) w))
              _ _ _ _ _); try reflexivity.
    apply setShowStats_loop_inv. keep_loop.
  - unfold statsButton_onClick.
    refine (loop_inv_congr (setShowStats (negb (showStats (panels w))) w)
              _ _ _ _ _); try reflexivity.
    apply setShowStats_loop_inv, H.
  - unfold settingsButton_onClick.
    refine (loop_inv_congr (setShowStats false
              (setShowSettings (negb (showSettings (panels w))) w))
              _ _ _ _ _); try reflexivity.
    apply setShowStats_loop_inv. keep_loop.
  - keep_loop.
  - keep_loop.
  - apply setShowStats_loop_inv, H.
  - keep_loop.
  - unfold toggleSubtitles.
    destruct (selectedSubtitleTrack (subs w) =? "off")%string;
      [destruct (subtitleTracks (subs w))|]; keep_loop.
  - unfold handleSubtitleFile. destruct (parseSRT content); keep_loop.
  - unfold handleMouseMove, clear_controls_timeout.
    destruct (isPlaying (playback w) && negb (showChapterList (panels w))
              && negb (showSettings (panels w))); keep_loop.
  - unfold togglePlay, assign_video_paused.
    destruct (videoRef (refs w)) as [v|] eqn:Ev; [|exact H].
    destruct (v_paused v); keep_loop.
  - unfold skipNextChapter.
    destruct (active md w); [exact H|].
    destruct (videoRef (refs w)) as [v|] eqn:Ev; [|exact H].
    apply showControlsTemp_loop_inv.
    destruct (find _ _); [|exact H].
    unfold seek_to, assign_video_currentTime. rewrite Ev. keep_loop.
  - destruct (skipPrevChapter md w) as [w'|] eqn:Ep; [|exact H].
    unfold skipPrevChapter in Ep.
    destruct (active md w) as [|c0 l0]; [injection Ep as <-; exact H|].
    destruct (videoRef (refs w)) as [v|] eqn:Ev;
      [|injection Ep as <-; exact H].
    assert (Hk : forall x w1,
               Ok (assign_video_currentTime x w) = Ok w1 ->
               loop_inv (showControlsTemp (read_back w1))).
    { intros x w1 E. injection E as <-.
      apply showControlsTemp_loop_inv.
      unfold read_back, assign_video_currentTime. rewrite Ev. simpl.
      keep_loop. }
    destruct (find_current (c0 :: l0) (currentTime (playback w)))
      as [cur|].
    + destruct (lt _ _).
      * destruct (_ >=? 0)%Z.
        -- destruct (nth_error _ _) as [p|]; simpl in Ep;
             [|discriminate].
           injection Ep as <-. apply (Hk _ _ eq_refl).
        -- simpl in Ep. injection Ep as <-. apply (Hk _ _ eq_refl).
      * simpl in Ep. injection Ep as <-. apply (Hk _ _ eq_refl).
    + simpl in Ep. injection Ep as <-. apply (Hk _ _ eq_refl).
  - unfold onError.
    destruct (videoRef (refs w)) as [v|]; [|exact H].
    destruct (v_error v) as [code|]; [|exact H].
    destruct code as [|[p|p|]]; try exact H; keep_loop.
  - unfold fire_timer.
    destruct (find _ _) as [t|]; [|exact H].
    unfold run_callback, when_mounted.
    destruct (callback t); simpl; destruct (mounted (host w)); keep_loop.
  - apply fire_frame_loop_inv, H.
Qed.

Lemma mount_loop_inv v : loop_inv (mount v).
Proof. reflexivity. Qed.

(** Unmounting cancels the stats loop: no animation frame stays pending. *)
Lemma unmount_cancels_stats_loop w :
  loop_inv w -> frames (host (unmount w)) = [].
Proof.
  unfold loop_inv, unmount, stats_cleanup, assign_video_paused. intros H.
  destruct (showStats (panels w)).
  - destruct H as (h & Ha & Hf). rewrite Ha. simpl.
    destruct (videoRef (refs w)); simpl; rewrite Hf; apply filter_self.
  - destruct (videoRef (refs w)); simpl; exact H.
Qed.

(** C8 fails on the code for the controls timer.  Start playback, move the
    pointer (this arms the 3000 ms timer) and unmount: the stats loop is
    cancelled, but the timer is still pending, and when it fires it sets
    [document.body.style.cursor] to "none" after teardown. *)
Theorem unmount_leaves_controls_timer :
  let w := run None [StatsButton; PlayButton; MouseMove; Unmount]
               (mount fresh_video) in
  mounted (host w) = false /\
  frames (host w) = [] /\
  map handle (timers (host w)) = [2] /\
  cursor (host w) = "default" /\
  cursor (host (step None (TimerFires 2) w)) = "none".
Proof. vm_compute. repeat split. Qed.

(** ** C9: importing, then toggling subtitles off and on *)

Lemma upload_id_not_off now : (upload_id now =? "off")%string = false.
Proof. reflexivity. Qed.

Lemma handleSubtitleFile_spec name now content w :
  handleSubtitleFile name now content w
  = setShowSettings true
      (setActiveCues
         (flat_map block_cues (split NLNL (normalize content)))
         (setSelectedSubtitleTrack (upload_id now)
            (setSubtitleTracks
               (fun prev => prev ++ [{| id := upload_id now; label := name;
                                        lang := Some "Unknown";
                                        isDefault := None |}]) w))).
Proof.
  unfold handleSubtitleFile. rewrite parseSRT_blocks. reflexivity.
Qed.

Lemma toggleSubtitles_on w :
  selectedSubtitleTrack (subs w) <> "off" ->
  toggleSubtitles w = setSelectedSubtitleTrack "off" w.
Proof.
  intros H. unfold toggleSubtitles.
  apply String.eqb_neq in H. rewrite H. reflexivity.
Qed.

Lemma toggleSubtitles_off w t ts :
  selectedSubtitleTrack (subs w) = "off" ->
  subtitleTracks (subs w) = t :: ts ->
  toggleSubtitles w = setSelectedSubtitleTrack (id t) w.
Proof.
  intros H Ht. unfold toggleSubtitles. rewrite H, Ht. reflexivity.
Qed.

(** C9. Let no existing track be called "off".  Importing a file appends a
    track, selects it and makes the parsed cues the active ones; toggling
    then switches the selection to "off"; toggling again selects a track
    (the first of the list), and the active cues are again those of the
    import, so the subtitle shown at every time is the one shown before
    toggling off. *)
Theorem import_toggle_roundtrip
  (name : string) (now : N) (content : string) (w : World) :
  Forall (fun t => id t <> "off") (subtitleTracks (subs w)) ->
  let w1 := handleSubtitleFile name now content w in
  let w2 := toggleSubtitles w1 in
  let w3 := toggleSubtitles w2 in
  (parseSRT content = Ok (activeCues (subs w1)) /\
   selectedSubtitleTrack (subs w1) = upload_id now /\
   map id (subtitleTracks (subs w1))
   = map id (subtitleTracks (subs w)) ++ [upload_id now]) /\
  selectedSubtitleTrack (subs w2) = "off" /\
  selectedSubtitleTrack (subs w3) <> "off" /\
  In (selectedSubtitleTrack (subs w3)) (map id (subtitleTracks (subs w3))) /\
  activeCues (subs w3) = activeCues (subs w1) /\
  (forall t, subtitle_at t w3 = subtitle_at t w1).
Proof.
  intros Hids w1 w2 w3.
  pose (new := {| id := upload_id now; label := name;
                  lang := Some "Unknown"; isDefault := None |}).
  assert (Hsel1 : selectedSubtitleTrack (subs w1) = upload_id now).
  { unfold w1. rewrite handleSubtitleFile_spec. reflexivity. }
  assert (Htr1 : subtitleTracks (subs w1)
                 = subtitleTracks (subs w) ++ [new]).
  { unfold w1. rewrite handleSubtitleFile_spec. reflexivity. }
  assert (Hcues1 : activeCues (subs w1)
                   = flat_map block_cues (split NLNL (normalize content))).
  { unfold w1. rewrite handleSubtitleFile_spec. reflexivity. }
  assert (E2 : w2 = setSelectedSubtitleTrack "off" w1).
  { apply toggleSubtitles_on. rewrite Hsel1. discriminate. }
  assert (Hhd : exists t ts, subtitleTracks (subs w1) = t :: ts /\
                             id t <> "off").
  { rewrite Htr1. destruct (subtitleTracks (subs w)) as [|t0 ts].
    - exists new, []. split; [reflexivity|discriminate].
    - exists t0, (ts ++ [new]). split; [reflexivity|].
      exact (Forall_inv Hids). }
  destruct Hhd as (t0 & ts & Ehd & Hoff).
  assert (E3 : w3 = setSelectedSubtitleTrack (id t0) w2).
  { apply (toggleSubtitles_off w2 t0 ts); rewrite E2; [reflexivity|].
    exact Ehd. }
  split; [split; [|split]|].
  - rewrite parseSRT_blocks, Hcues1. reflexivity.
  - exact Hsel1.
  - rewrite Htr1, map_app. reflexivity.
  - split; [rewrite E2; reflexivity|].
    split; [rewrite E3; exact Hoff|].
    split.
    { rewrite E3, E2. cbn. rewrite Ehd. left. reflexivity. }
    split; [rewrite E3, E2; reflexivity|].
    intros t. unfold subtitle_at, currentSubtitle.
    rewrite E3, E2. cbn.
    apply String.eqb_neq in Hoff. rewrite Hoff.
    rewrite Hsel1, upload_id_not_off. reflexivity.
Qed.

(** The round trip right after mounting, with the one-cue file. *)
Lemma import_toggle_roundtrip_witness :
  let w1 := handleSubtitleFile "a.srt" 1700000000000 one_cue_file
              (mount fresh_video) in
  let w3 := toggleSubtitles (toggleSubtitles w1) in
  selectedSubtitleTrack (subs w3) <> "off" /\
  activeCues (subs w3) = activeCues (subs w1) /\
  subtitle_at (of_Z 63) w3 = "Hello".
Proof.
  intros w1 w3.
  destruct (import_toggle_roundtrip "a.srt" 1700000000000 one_cue_file
              (mount fresh_video) (Forall_nil _))
    as (_ & _ & Hsel & _ & Hcues & Hsub).
  split; [exact Hsel|]. split; [exact Hcues|].
  transitivity (subtitle_at (of_Z 63) w1);
    [exact (Hsub (of_Z 63))|reflexivity].
Defined.

(* ================================================================== *)
(** * Further properties *)
(* ================================================================== *)

(** ** Line ends of any text *)

(** X1. A text, well formed or not, parses to the same cues whether its
    lines end in LF, in CR LF or in CR alone. *)
Theorem parseSRT_line_ends (e : LineEnd) (s : string) :
  every no_CR s = true -> parseSRT (written e s) = parseSRT s.
Proof.
  intros H. unfold parseSRT.
  rewrite (normalize_written e s H), (normalize_id s H). reflexivity.
Qed.

(** A file of two blocks, the first without separator, with old Macintosh
    line ends. *)
Lemma parseSRT_line_ends_witness :
  parseSRT (written OldMac ("no arrow" ++ NLNL ++ one_cue_file))
  = parseSRT ("no arrow" ++ NLNL ++ one_cue_file).
Proof. apply (parseSRT_line_ends OldMac). reflexivity. Defined.

(** ** Stripping tags twice *)

Lemma tag_at_positive s n : tag_at s = Some n -> n <> 0.
Proof.
  destruct s as [|c r]; [discriminate|].
  destruct (c =? "<")%char eqn:Ec;
    [|rewrite (tag_at_not_lt c r Ec); discriminate].
  apply Ascii.eqb_eq in Ec. subst c. rewrite tag_at_lt.
  destruct (tag_body r); simpl; intros E; [|discriminate].
  injection E as <-. discriminate.
Qed.

Lemma tag_at_none_shape r :
  tag_at (String "<" r) = None ->
  r = "" \/ exists r', r = String ">" r'.
Proof.
  rewrite tag_at_lt. pose proof (tag_body_shape r) as Hs.
  destruct (tag_body r); [discriminate|]. intros _. exact Hs.
Qed.

Lemma strip_from_tagless k s : tagless (strip_from k s) = true.
Proof.
  revert k. induction s as [|c r IH]; intros k; [reflexivity|].
  cbn [strip_from]. destruct k as [|k]; [|apply IH].
  destruct (tag_at (String c r)) as [[|n]|] eqn:E.
  - exfalso. exact (tag_at_positive _ _ E eq_refl).
  - apply IH.
  - cbn [tagless]. rewrite IH, andb_true_r.
    destruct (c =? "<")%char eqn:Ec; [|reflexivity].
    apply Ascii.eqb_eq in Ec. subst c.
    destruct (tag_at_none_shape r E) as [->|[r' ->]]; [reflexivity|].
    rewrite strip_from_no_lt by reflexivity. reflexivity.
Qed.

Lemma strip_from_tagless_id s : tagless s = true -> strip_from 0 s = s.
Proof.
  induction s as [|c r IH]; [reflexivity|].
  cbn [tagless]. intros H. apply andb_prop in H. destruct H as [Hc Hr].
  rewrite strip_keep, (IH Hr); [reflexivity|].
  destruct (c =? "<")%char eqn:Ec.
  - right. destruct r as [|d r']; [left; reflexivity|].
    apply Ascii.eqb_eq in Hc. subst d. right. eauto.
  - left. intros ->. discriminate Ec.
Qed.

(** X2. What [strip_tags] returns holds no further match of the tag
    expression, so stripping it again changes nothing. *)
Theorem strip_tags_idempotent (s : string) :
  tagless (strip_tags s) = true /\
  strip_tags (strip_tags s) = strip_tags s.
Proof.
  split; [apply strip_from_tagless|].
  apply strip_from_tagless_id, strip_from_tagless.
Qed.

(** ** Timestamps of other shapes *)

Lemma plain_no_sep c : plain c = true -> negb (comma_or_dot c) = true.
Proof.
  unfold plain. intros H.
  repeat (apply andb_prop in H; destruct H as [H ?]). assumption.
Qed.

Lemma plain_no_colon c : plain c = true -> negb (c =? ":")%char = true.
Proof.
  unfold plain. intros H.
  repeat (apply andb_prop in H; destruct H as [H ?]). assumption.
Qed.

Lemma split_class_one p l :
  every (fun c => negb (p c)) l = true -> split_class p l = [l].
Proof.
  intros Hl. rewrite <- (append_nil_r l) at 1.
  rewrite (split_class_prepend p l "" "" [] Hl); [|reflexivity].
  rewrite append_nil_r. reflexivity.
Qed.

Lemma digits_nonempty d : match_digits d = true -> d <> "".
Proof.
  intros H. destruct (match_digits_cons d H) as (c & r & -> & _).
  discriminate.
Qed.

(** X3. A timestamp [H:M:S] without fraction (fields of at most nine
    digits) parses with 0 milliseconds: to [h*3600 + m*60 + s]. *)
Theorem parseTime_without_fraction (h m s : string) :
  match_digits h = true -> match_digits m = true ->
  match_digits s = true ->
  String.length h <= 9 -> String.length m <= 9 -> String.length s <= 9 ->
  exists q,
    parseTime (Some (h ++ ":" ++ m ++ ":" ++ s)%string) = Ok (Fin q) /\
    (q == inject_Z (value h) * 3600 + inject_Z (value m) * 60
          + inject_Z (value s))%Q.
Proof.
  intros Hh Hm Hs _ _ _.
  rewrite parseTime_body.
  2:{ destruct (match_digits_cons h Hh) as (c & r & -> & _). discriminate. }
  cbv zeta. rewrite split_class_one.
  2:{ rewrite !every_app. cbn [every].
      rewrite !(digits_every _ _ plain_no_sep) by assumption. reflexivity. }
  cbn [nth_error deref bind].
  rewrite (split_piece ":" "" h _ (digits_every _ _ plain_no_colon Hh)).
  rewrite (split_piece ":" "" m _ (digits_every _ _ plain_no_colon Hm)).
  rewrite (split_last ":" "" s (digits_every _ _ plain_no_colon Hs)).
  cbn [map nth_error to_number].
  destruct (Number_digits _ Hh) as (qh & -> & Eh).
  destruct (Number_digits _ Hm) as (qm & -> & Em).
  destruct (Number_digits _ Hs) as (qs & -> & Es).
  eexists. split; [reflexivity|].
  rewrite Eh, Em, Es, !digits_Z_value by (apply match_digits_all; assumption).
  simpl. field.
Qed.

(** One hour, two minutes and three seconds. *)
Lemma parseTime_without_fraction_witness :
  exists q, parseTime (Some "1:02:03") = Ok (Fin q) /\
            (q == inject_Z (value "1") * 3600 + inject_Z (value "02") * 60
                  + inject_Z (value "03"))%Q.
Proof.
  apply (parseTime_without_fraction "1" "02" "03");
    try reflexivity; simpl; lia.
Defined.

(** X4. A timestamp with two fields only, [MM:SS.mmm] as WebVTT allows, is
    not a number for [parseTime], and a WebVTT file written with such
    timestamps yields no cue. *)
Theorem parseTime_two_fields (m s : string) (sep : ascii) (ms : string) :
  match_digits m = true -> match_digits s = true ->
  match_digits ms = true -> comma_or_dot sep = true ->
  parseTime (Some ((m ++ ":" ++ s) ++ String sep ms)%string) = Ok NaN /\
  parseSRT ("WEBVTT" ++ NLNL ++ "00:01.000 --> 00:04.000" ++ NL ++ "Hello")
  = Ok [].
Proof.
  intros Hm Hs Hms Hsep. split; [|reflexivity].
  rewrite parseTime_body.
  2:{ destruct (match_digits_cons m Hm) as (c & r & -> & _). discriminate. }
  cbv zeta. rewrite split_class_two.
  2:{ rewrite !every_app. cbn [every].
      rewrite !(digits_every _ _ plain_no_sep) by assumption. reflexivity. }
  2:{ exact Hsep. }
  2:{ apply (digits_every _ _ plain_no_sep), Hms. }
  cbn [nth_error deref bind].
  rewrite (split_piece ":" "" m _ (digits_every _ _ plain_no_colon Hm)).
  rewrite (split_last ":" "" s (digits_every _ _ plain_no_colon Hs)).
  cbn [map nth_error to_number].
  destruct (Number_digits _ Hm) as (qm & -> & _).
  destruct (Number_digits _ Hs) as (qs & -> & _).
  reflexivity.
Qed.

(** One second, in the short form. *)
Lemma parseTime_two_fields_witness :
  parseTime (Some "00:01.000") = Ok NaN.
Proof.
  apply (parseTime_two_fields "00" "01" "." "000"); reflexivity.
Defined.

(** ** The current chapter *)

Lemma find_split {A} (p : A -> bool) (l : list A) (c : A) :
  find p l = Some c ->
  exists a b, l = a ++ c :: b /\ Forall (fun x => p x = false) a /\
              p c = true.
Proof.
  induction l as [|x l IH]; simpl; [discriminate|].
  destruct (p x) eqn:E.
  - intros H. injection H as <-. exists [], l. auto.
  - intros H. destruct (IH H) as (a & b & -> & Ha & Hc).
    exists (x :: a), b. auto.
Qed.

Lemma find_current_shape chs t c :
  find_current chs t = Some c ->
  exists pre post, chs = pre ++ c :: post /\ started t c = true /\
                   Forall (fun x => started t x = false) post.
Proof.
  unfold find_current. intros H.
  destruct (find_split (started t) (rev chs) c H) as (a & b & E & Ha & Hc).
  exists (rev b), (rev a). split; [|split].
  - rewrite <- (rev_involutive chs), E, rev_app_distr. simpl.
    rewrite <- app_assoc. reflexivity.
  - exact Hc.
  - apply Forall_rev, Ha.
Qed.

Lemma le_refl_started t c : started t c = true -> starts_le c c.
Proof.
  unfold started, starts_le, ge.
  destruct (startTime c), t; simpl; intros H; try discriminate H;
    try reflexivity; apply Qle_bool_iff, Qle_refl.
Qed.

Lemma chapters_sorted md d : StronglySorted starts_le (chapters md d).
Proof.
  unfold chapters. destruct md as [cs|]; [|constructor].
  destruct (is_zero d); [constructor|].
  apply sort_sorted. apply Forall_forall. intros c Hc.
  apply filter_In in Hc. eapply lt_bounded_above. exact (proj2 Hc).
Qed.

Lemma StronglySorted_app_inv {A} (R : A -> A -> Prop) a c b :
  StronglySorted R (a ++ c :: b) -> Forall (fun x => R x c) a.
Proof.
  induction a as [|x a IH]; simpl; intros H; [constructor|].
  inversion H as [|? ? Hs Hx]; subst. constructor.
  - rewrite Forall_forall in Hx. apply Hx.
    apply in_or_app. right. left. reflexivity.
  - apply IH, Hs.
Qed.

(** X5. On the active list, whatever the metadata: the current chapter is
    a chapter that has started and that starts no earlier than any other
    started chapter; there is none exactly when no active chapter has
    started.  With chapters at 0, 60 and 180: at 59 it is the chapter at 0,
    at 60 the chapter at 60. *)
Theorem currentChapter_latest_started :
  (forall md d t,
     let chs := chapters md d in
     (forall c, currentChapter chs t = Some c ->
        In c chs /\ started t c = true /\
        forall c', In c' chs -> started t c' = true -> starts_le c' c) /\
     (currentChapter chs t = None <->
      Forall (fun c => started t c = false) chs)) /\
  option_map startTime
    (currentChapter (chapters (Some three_chapters) (of_Z 200)) (of_Z 59))
  = Some (of_Z 0) /\
  option_map startTime
    (currentChapter (chapters (Some three_chapters) (of_Z 200)) (of_Z 60))
  = Some (of_Z 60).
Proof.
  split; [|split; reflexivity].
  intros md d t chs.
  assert (Hcur : currentChapter chs t = find_current chs t).
  { unfold currentChapter. destruct chs; reflexivity. }
  rewrite Hcur. split.
  - intros c Hc.
    destruct (find_current_shape chs t c Hc) as (pre & post & E & Hs & Hpost).
    split; [rewrite E; apply in_or_app; right; left; reflexivity|].
    split; [exact Hs|].
    intros c' Hin Hs'. rewrite E in Hin.
    apply in_app_or in Hin. destruct Hin as [Hin|[<-|Hin]].
    + pose proof (chapters_sorted md d) as Hsorted. fold chs in Hsorted.
      rewrite E in Hsorted.
      pose proof (StronglySorted_app_inv _ _ _ _ Hsorted) as Hpre.
      rewrite Forall_forall in Hpre. apply Hpre, Hin.
    + apply (le_refl_started t), Hs.
    + rewrite Forall_forall in Hpost. rewrite (Hpost _ Hin) in Hs'.
      discriminate.
  - split.
    + intros Hn. unfold find_current in Hn.
      apply Forall_forall. intros c Hin.
      apply (find_none _ _ Hn). apply in_rev in Hin. exact Hin.
    + apply find_current_none.
Qed.

(** The chapter at 60 at the instant 60. *)
Lemma currentChapter_latest_started_witness :
  let chs := chapters (Some three_chapters) (of_Z 200) in
  In (chapter_at 1 60) chs /\ started (of_Z 60) (chapter_at 1 60) = true /\
  forall c', In c' chs -> started (of_Z 60) c' = true ->
             starts_le c' (chapter_at 1 60).
Proof.
  exact (proj1 (proj1 currentChapter_latest_started (Some three_chapters)
                      (of_Z 200) (of_Z 60))
               (chapter_at 1 60) eq_refl).
Defined.

(** ** Metadata that is already in order *)

Lemma insert_least x l :
  bounded_above (startTime x) ->
  Forall (fun c => bounded_above (startTime c)) l ->
  Forall (starts_le x) l ->
  insert by_startTime x l = x :: l.
Proof.
  intros Hx Hb Hl. destruct l as [|y l]; [reflexivity|].
  cbn [insert].
  change (sort_compare by_startTime x y)
    with (sort_compare sub (startTime x) (startTime y)).
  rewrite (sort_compare_sub _ _ Hx (Forall_inv Hb)).
  pose proof (Forall_inv Hl) as Hxy. unfold starts_le in Hxy.
  rewrite Hxy. reflexivity.
Qed.

Lemma sort_sorted_id l :
  Forall (fun c => bounded_above (startTime c)) l ->
  StronglySorted starts_le l ->
  sort by_startTime l = l.
Proof.
  intros Hb Hs. induction Hs as [|x l Hs IH Hx]; [reflexivity|].
  cbn [sort]. rewrite (IH (Forall_inv_tail Hb)).
  apply insert_least;
    [exact (Forall_inv Hb)|exact (Forall_inv_tail Hb)|exact Hx].
Qed.

Lemma filter_sorted {A} (R : A -> A -> Prop) (p : A -> bool) l :
  StronglySorted R l -> StronglySorted R (filter p l).
Proof.
  induction 1 as [|x l Hs IH Hx]; simpl; [constructor|].
  destruct (p x); [|exact IH].
  constructor; [exact IH|].
  apply Forall_forall. intros y Hy. apply filter_In in Hy.
  rewrite Forall_forall in Hx. apply Hx, Hy.
Qed.

(** X6. When the chapters of the metadata are already in ascending order
    of start, the active list is that list cut down to the chapters that
    start before the duration: nothing is reordered. *)
Theorem chapters_keep_order (cs : list Chapter) (d : number) :
  StronglySorted starts_le cs -> is_zero d = false ->
  chapters (Some cs) d = filter (fun c => lt (startTime c) d) cs.
Proof.
  intros Hs Hd. unfold chapters. rewrite Hd.
  apply sort_sorted_id.
  - apply Forall_forall. intros c Hc. apply filter_In in Hc.
    eapply lt_bounded_above. exact (proj2 Hc).
  - apply filter_sorted, Hs.
Qed.

(** The three chapters, cut at 100. *)
Lemma chapters_keep_order_witness :
  chapters (Some three_chapters) (of_Z 100)
  = [chapter_at 0 0; chapter_at 1 60].
Proof.
  rewrite (chapters_keep_order three_chapters (of_Z 100));
    [reflexivity| |reflexivity].
  repeat constructor.
Defined.

(** ** Which way the chapter skips go *)






(** ** What the events leave alone *)

Lemma showControlsTemp_subs w : subs (showControlsTemp w) = subs w.
Proof.
  unfold showControlsTemp, clear_controls_timeout; simpl.
  destruct (controlsTimeoutRef (refs w)) as [[|n]|]; reflexivity.
Qed.

Lemma updateStats_subs w : subs (updateStats w) = subs w.
Proof.
  unfold updateStats, when_mounted.
  destruct (videoRef (refs w)); [destruct (mounted (host w))|]; reflexivity.
Qed.

Lemma updateStats_playback w : playback (updateStats w) = playback w.
Proof.
  unfold updateStats, when_mounted.
  destruct (videoRef (refs w)); [destruct (mounted (host w))|]; reflexivity.
Qed.

Lemma setShowStats_subs b w : subs (setShowStats b w) = subs w.
Proof.
  destruct (showStats (panels w)) eqn:Es; destruct b.
  - rewrite (setShowStats_same true w Es). reflexivity.
  - rewrite (setShowStats_off w Es).
    destruct (animationFrameId (refs w)); reflexivity.
  - rewrite (setShowStats_on w Es), updateStats_subs. reflexivity.
  - rewrite (setShowStats_same false w Es). reflexivity.
Qed.

Lemma setShowStats_playback b w : playback (setShowStats b w) = playback w.
Proof.
  destruct (showStats (panels w)) eqn:Es; destruct b.
  - rewrite (setShowStats_same true w Es). reflexivity.
  - rewrite (setShowStats_off w Es).
    destruct (animationFrameId (refs w)); reflexivity.
  - rewrite (setShowStats_on w Es), updateStats_playback. reflexivity.
  - rewrite (setShowStats_same false w Es). reflexivity.
Qed.

(** What [skipPrevChapter] returns is [w] itself or [w] after a seek and a
    pulse of the controls. *)
Lemma skipPrevChapter_shape md w w' :
  skipPrevChapter md w = Ok w' ->
  w' = w \/
  exists y, w' = showControlsTemp (read_back (assign_video_currentTime y w)).
Proof.
  unfold skipPrevChapter. intros H.
  destruct (active md w) as [|c0 l0]; [injection H as <-; left; reflexivity|].
  destruct (videoRef (refs w)) as [v|] eqn:Ev;
    [|injection H as <-; left; reflexivity].
  right.
  destruct (find_current (c0 :: l0) (currentTime (playback w))) as [cur|].
  - destruct (lt _ _).
    + destruct (_ >=? 0)%Z.
      * destruct (nth_error _ _) as [p|]; simpl in H; [|discriminate].
        injection H as <-. eauto.
      * simpl in H. injection H as <-. eauto.
    + simpl in H. injection H as <-. eauto.
  - simpl in H. injection H as <-. eauto.
Qed.

Lemma read_back_subs w : subs (read_back w) = subs w.
Proof. unfold read_back. destruct (videoRef (refs w)); reflexivity. Qed.

Lemma assign_video_currentTime_subs y w :
  subs (assign_video_currentTime y w) = subs w.
Proof.
  unfold assign_video_currentTime. destruct (videoRef (refs w)); reflexivity.
Qed.

Lemma assign_video_paused_subs b w : subs (assign_video_paused b w) = subs w.
Proof.
  unfold assign_video_paused. destruct (videoRef (refs w)); reflexivity.
Qed.

(** Only the subtitle button and a loaded subtitle file touch the subtitle
    cells. *)
Lemma step_subs md e w :
  e <> CCButton -> (forall n t c, e <> SubtitleLoaded n t c) ->
  subs (step md e w) = subs w.
Proof.
  intros H1 H2. destruct e; cbn [step]; try congruence.
  - unfold chapterListButton_onClick. cbv zeta.
    change (subs (setShowStats false
                    (setShowChapterList (negb (showChapterList (panels w))) w))
            = subs w).
    rewrite setShowStats_subs. reflexivity.
  - unfold statsButton_onClick. cbv zeta.
    change (subs (setShowStats (negb (showStats (panels w))) w) = subs w).
    apply setShowStats_subs.
  - unfold settingsButton_onClick. cbv zeta.
    change (subs (setShowStats false
                    (setShowSettings (negb (showSettings (panels w))) w))
            = subs w).
    rewrite setShowStats_subs. reflexivity.
  - reflexivity.
  - reflexivity.
  - apply setShowStats_subs.
  - reflexivity.
  - unfold handleMouseMove, clear_controls_timeout.
    destruct (isPlaying (playback w) && negb (showChapterList (panels w))
              && negb (showSettings (panels w)));
      simpl; destruct (controlsTimeoutRef (refs w)) as [[|n]|];
      reflexivity.
  - unfold togglePlay.
    destruct (videoRef (refs w)) as [v|] eqn:Ev; [|reflexivity].
    destruct (v_paused v); cbn; apply assign_video_paused_subs.
  - unfold skipNextChapter.
    destruct (active md w); [reflexivity|].
    destruct (videoRef (refs w)) as [v|] eqn:Ev; [|reflexivity].
    rewrite showControlsTemp_subs.
    destruct (find _ _); [|reflexivity].
    unfold seek_to. cbn. apply assign_video_currentTime_subs.
  - destruct (skipPrevChapter md w) as [w'|] eqn:Ep; [|reflexivity].
    destruct (skipPrevChapter_shape md w w' Ep) as [->|[y ->]];
      [reflexivity|].
    rewrite showControlsTemp_subs, read_back_subs.
    apply assign_video_currentTime_subs.
  - unfold onError.
    destruct (videoRef (refs w)) as [v|]; [|reflexivity].
    destruct (v_error v) as [code|]; [|reflexivity].
    destruct code as [|[p|p|]]; reflexivity.
  - unfold fire_timer.
    destruct (find _ _) as [t|]; [|reflexivity].
    unfold run_callback, when_mounted.
    destruct (callback t); simpl; destruct (mounted (host w)); reflexivity.
  - unfold fire_frame.
    destruct (existsb _ _); [|reflexivity].
    rewrite updateStats_subs. reflexivity.
  - unfold unmount, stats_cleanup.
    cbn. rewrite assign_video_paused_subs.
    destruct (showStats (panels w)); [|reflexivity].
    destruct (animationFrameId (refs w)); reflexivity.
Qed.

(** ** The subtitle selection *)

Lemma toggleSubtitles_valid w : selection_valid (toggleSubtitles w).
Proof.
  unfold toggleSubtitles, selection_valid.
  destruct (selectedSubtitleTrack (subs w) =? "off")%string eqn:E.
  - destruct (subtitleTracks (subs w)) as [|t ts] eqn:Et; simpl.
    + left. apply String.eqb_eq, E.
    + right. rewrite Et. left. reflexivity.
  - left. reflexivity.
Qed.

Lemma handleSubtitleFile_valid n t c w :
  selection_valid (handleSubtitleFile n t c w).
Proof.
  rewrite handleSubtitleFile_spec. right. simpl.
  rewrite map_app. apply in_or_app. right. left. reflexivity.
Qed.

Lemma step_selection_valid md e w :
  selection_valid w -> selection_valid (step md e w).
Proof.
  intros H.
  destruct e; try (unfold selection_valid;
                   rewrite step_subs by discriminate; exact H).
  - apply toggleSubtitles_valid.
  - apply handleSubtitleFile_valid.
Qed.

Lemma selection_valid_subs w w' :
  subs w' = subs w -> selection_valid w -> selection_valid w'.
Proof. unfold selection_valid. intros ->. exact (fun H => H). Qed.

Lemma seek_to_subs t w : subs (seek_to t w) = subs w.
Proof. unfold seek_to. cbn. apply assign_video_currentTime_subs. Qed.

Lemma act_selection_valid md a w :
  selection_valid w -> selection_valid (act md a w).
Proof.
  intros H. destruct a; cbn [act].
  - apply step_selection_valid, H.
  - left. reflexivity.
  - unfold subtitleTrack_onClick.
    destruct (nth_error (subtitleTracks (subs w)) i) as [t|] eqn:E;
      [|exact H].
    right. simpl. apply in_map. eapply nth_error_In. exact E.
  - exact H.
  - apply (selection_valid_subs w); [|exact H].
    unfold onTimeUpdate. destruct (videoRef (refs w)); reflexivity.
  - exact H.
  - apply (selection_valid_subs w); [|exact H].
    unfold play_resolved. cbn. apply assign_video_paused_subs.
  - destruct abortError; exact H.
  - exact H.
  - exact H.
  - exact H.
  - apply (selection_valid_subs w); [|exact H].
    unfold seek. destruct (videoRef (refs w)); [|reflexivity].
    rewrite showControlsTemp_subs. apply assign_video_currentTime_subs.
  - apply (selection_valid_subs w); [|exact H].
    unfold handleSeekRange. destruct (videoRef (refs w)); [|reflexivity].
    apply seek_to_subs.
  - apply (selection_valid_subs w); [|exact H].
    unfold skipIntro. destruct intro; [|reflexivity].
    destruct (videoRef (refs w)); [|reflexivity].
    rewrite showControlsTemp_subs. apply seek_to_subs.
  - apply (selection_valid_subs w); [|exact H].
    apply showControlsTemp_subs.
Qed.

(** X8. Whatever happens after mounting (the events of the player and of
    the video element, the clicks in the subtitle menu, seeks and skips, in
    any order), the subtitle selection is "off" or names a track of the
    list. *)
Theorem selection_always_valid md acts v :
  selection_valid (session md acts (mount v)).
Proof.
  unfold session.
  assert (H : selection_valid (mount v)) by (left; reflexivity).
  revert H. generalize (mount v).
  induction acts as [|a acts IH]; intros w H; [exact H|].
  simpl. apply IH, act_selection_valid, H.
Qed.

(** ** The error state *)

Lemma showControlsTemp_error w :
  error (playback (showControlsTemp w)) = error (playback w).
Proof. rewrite showControlsTemp_playback. reflexivity. Qed.

Lemma seek_error y w :
  error (playback (read_back (assign_video_currentTime y w)))
  = error (playback w).
Proof.
  unfold read_back, assign_video_currentTime.
  destruct (videoRef (refs w)) eqn:E; cbn; rewrite ?E; reflexivity.
Qed.

(** No event other than a media error touches the error cell. *)
Lemma step_error md e w :
  e <> VideoError ->
  error (playback (step md e w)) = error (playback w).
Proof.
  intros H1. destruct e; cbn [step]; try congruence.
  - unfold chapterListButton_onClick. cbv zeta.
    change (error (playback (setShowStats false
              (setShowChapterList (negb (showChapterList (panels w))) w)))
            = error (playback w)).
    rewrite setShowStats_playback. reflexivity.
  - unfold statsButton_onClick. cbv zeta.
    change (error (playback (setShowStats (negb (showStats (panels w))) w))
            = error (playback w)).
    rewrite setShowStats_playback. reflexivity.
  - unfold settingsButton_onClick. cbv zeta.
    change (error (playback (setShowStats false
              (setShowSettings (negb (showSettings (panels w))) w)))
            = error (playback w)).
    rewrite setShowStats_playback. reflexivity.
  - reflexivity.
  - reflexivity.
  - rewrite setShowStats_playback. reflexivity.
  - reflexivity.
  - unfold toggleSubtitles.
    destruct (selectedSubtitleTrack (subs w) =? "off")%string;
      [destruct (subtitleTracks (subs w))|]; reflexivity.
  - rewrite handleSubtitleFile_spec. reflexivity.
  - unfold handleMouseMove, clear_controls_timeout.
    destruct (isPlaying (playback w) && negb (showChapterList (panels w))
              && negb (showSettings (panels w)));
      simpl; destruct (controlsTimeoutRef (refs w)) as [[|n]|];
      reflexivity.
  - unfold togglePlay, assign_video_paused.
    destruct (videoRef (refs w)) as [v|] eqn:Ev; [|reflexivity].
    destruct (v_paused v); reflexivity.
  - unfold skipNextChapter.
    destruct (active md w); [reflexivity|].
    destruct (videoRef (refs w)) as [v|] eqn:Ev; [|reflexivity].
    rewrite showControlsTemp_error.
    destruct (find _ _); [|reflexivity].
    unfold seek_to, assign_video_currentTime. rewrite Ev. reflexivity.
  - destruct (skipPrevChapter md w) as [w'|] eqn:Ep; [|reflexivity].
    destruct (skipPrevChapter_shape md w w' Ep) as [->|[y ->]];
      [reflexivity|].
    rewrite showControlsTemp_error. apply seek_error.
  - unfold fire_timer.
    destruct (find _ _) as [t|]; [|reflexivity].
    unfold run_callback, when_mounted.
    destruct (callback t); simpl; destruct (mounted (host w)); reflexivity.
  - unfold fire_frame.
    destruct (existsb _ _); [|reflexivity].
    rewrite updateStats_playback. reflexivity.
  - unfold unmount, stats_cleanup, assign_video_paused.
    destruct (showStats (panels w)); cbn;
      [destruct (animationFrameId (refs w)); cbn|];
      destruct (videoRef (refs w)); reflexivity.
Qed.

Lemma onError_keeps w :
  error (playback w) <> None -> error (playback (onError w)) <> None.
Proof.
  intros H. unfold onError.
  destruct (videoRef (refs w)) as [v|]; [|exact H].
  destruct (v_error v) as [code|]; [|exact H].
  destruct code as [|[p|p|]]; try exact H; discriminate.
Qed.

Lemma assign_video_currentTime_playback y w :
  playback (assign_video_currentTime y w) = playback w.
Proof.
  unfold assign_video_currentTime. destruct (videoRef (refs w)); reflexivity.
Qed.

Lemma seek_to_error t w :
  error (playback (seek_to t w)) = error (playback w).
Proof.
  unfold seek_to. cbn. rewrite assign_video_currentTime_playback.
  reflexivity.
Qed.

Lemma act_error md a w :
  a <> OnEvent VideoError ->
  error (playback (act md a w)) = error (playback w).
Proof.
  intros H. destruct a; cbn [act].
  - apply step_error. congruence.
  - reflexivity.
  - unfold subtitleTrack_onClick.
    destruct (nth_error (subtitleTracks (subs w)) i); reflexivity.
  - reflexivity.
  - unfold onTimeUpdate. destruct (videoRef (refs w)); reflexivity.
  - reflexivity.
  - unfold play_resolved, assign_video_paused.
    destruct (videoRef (refs w)); reflexivity.
  - destruct abortError; reflexivity.
  - reflexivity.
  - reflexivity.
  - reflexivity.
  - unfold seek. destruct (videoRef (refs w)); [|reflexivity].
    rewrite showControlsTemp_error, assign_video_currentTime_playback.
    reflexivity.
  - unfold handleSeekRange. destruct (videoRef (refs w)); [|reflexivity].
    apply seek_to_error.
  - unfold skipIntro. destruct intro; [|reflexivity].
    destruct (videoRef (refs w)); [|reflexivity].
    rewrite showControlsTemp_error. apply seek_to_error.
  - apply showControlsTemp_error.
Qed.

Lemma Action_eq_dec (a : Action) :
  a = OnEvent VideoError \/ a <> OnEvent VideoError.
Proof.
  destruct a as [e| | | | | | | | | | | | | |]; try (right; discriminate).
  destruct e; try (right; discriminate). left. reflexivity.
Qed.

(** X9. The error state is final for the mounted player: only a media error
    writes the error cell, and once a message is set nothing that happens
    afterwards (events of the player and of the video element, menu clicks,
    seeks and skips, in any order) clears it. *)
Theorem error_is_final :
  (forall md a w,
     a <> OnEvent VideoError ->
     error (playback (act md a w)) = error (playback w)) /\
  (forall md acts w,
     error (playback w) <> None ->
     error (playback (session md acts w)) <> None).
Proof.
  split; [exact act_error|].
  intros md acts. unfold session.
  induction acts as [|a acts IH]; intros w H; [exact H|].
  simpl. apply IH.
  destruct (Action_eq_dec a) as [->|Ha].
  - apply onError_keeps, H.
  - rewrite (act_error md a w Ha). exact H.
Qed.

(** After a decode error: play, a pointer move, a skip and a click on
    "Disabled" leave the message in place. *)
Lemma error_is_final_witness :
  error (playback
           (session (Some three_chapters)
                    [OnEvent PlayButton; OnEvent MouseMove; PlayResolved;
                     OnEvent NextChapter; TimeUpdate; SubtitleOff]
                    errored_world))
  <> None.
Proof.
  apply (proj2 error_is_final). discriminate.
Defined.

(** ** The auto-hide timer *)

Lemma quiet_refl w : quiet w w.
Proof. repeat split. apply Nat.le_refl. Qed.




















(** ** Volume and mute *)

Lemma clamp_unit x :
  isNaN x = false ->
  exists q, Math_min (Math_max x (Fin 0%Q)) (Fin 1%Q) = Fin q /\
            (0 <= q <= 1)%Q.
Proof.
  intros Hx. destruct x as [| | |r]; [discriminate Hx| | |].
  - exists 1%Q. split; [reflexivity|lra].
  - exists 0%Q. split; [reflexivity|lra].
  - unfold Math_max, Math_min. cbn [isNaN orb lt].
    unfold Qlt_bool.
    destruct (Qle_bool 0 r) eqn:E0; cbn [negb].
    + cbn [isNaN orb lt]. unfold Qlt_bool.
      apply Qle_bool_iff in E0.
      destruct (Qle_bool r 1) eqn:E1; cbn [negb].
      * apply Qle_bool_iff in E1. exists r. split; [reflexivity|lra].
      * exists 1%Q. split; [reflexivity|lra].
    + cbn [isNaN orb lt]. unfold Qlt_bool.
      exists 0%Q. split; [reflexivity|lra].
Qed.

(** X12. A volume step on an attached element, from numbers whose sum is
    not NaN, leaves a volume between 0 and 1 in the cell and on the
    element alike; the cell [isMuted] says whether that volume is 0; the
    [muted] flag of the element is not written. *)
Theorem changeVolume_clamped (delta : number) (a : Audio) (e : ElementAudio) :
  audio_el a = Some e ->
  isNaN (add (v_volume e) delta) = false ->
  exists q,
    (0 <= q <= 1)%Q /\
    volume (changeVolume delta a) = Fin q /\
    audio_el (changeVolume delta a)
    = Some {| v_volume := Fin q; v_muted := v_muted e |} /\
    (isMuted (changeVolume delta a) = true <-> (q == 0)%Q).
Proof.
  intros He Hx. unfold changeVolume. rewrite He. cbv zeta.
  destruct (clamp_unit _ Hx) as (q & -> & Hq).
  exists q. cbn. split; [exact Hq|]. split; [reflexivity|].
  split; [reflexivity|]. apply Qeq_bool_iff.
Qed.

(** One step up from 0.95. *)
Lemma changeVolume_clamped_witness :
  exists q,
    (0 <= q <= 1)%Q /\
    volume (changeVolume (Fin (1 # 10))
              {| volume := Fin (19 # 20); isMuted := false;
                 audio_el := Some {| v_volume := Fin (19 # 20);
                                     v_muted := false |} |}) = Fin q /\
    audio_el (changeVolume (Fin (1 # 10))
              {| volume := Fin (19 # 20); isMuted := false;
                 audio_el := Some {| v_volume := Fin (19 # 20);
                                     v_muted := false |} |})
    = Some {| v_volume := Fin q; v_muted := false |} /\
    (isMuted (changeVolume (Fin (1 # 10))
              {| volume := Fin (19 # 20); isMuted := false;
                 audio_el := Some {| v_volume := Fin (19 # 20);
                                     v_muted := false |} |}) = true
     <-> (q == 0)%Q).
Proof.
  apply (changeVolume_clamped (Fin (1 # 10)) _
           {| v_volume := Fin (19 # 20); v_muted := false |});
    reflexivity.
Defined.

(** X13. Muting and the volume keys do not know of each other.
    [toggleMute] never writes the volume of the element, yet muting and
    unmuting leaves 1 in the volume cell; and after muting, a volume step
    that does not end at 0 clears the cell [isMuted] while the element
    stays muted. *)
Theorem mute_and_volume_apart (a : Audio) (e : ElementAudio) :
  audio_el a = Some e -> isMuted a = false ->
  option_map v_volume (audio_el (toggleMute a)) = Some (v_volume e) /\
  (let a2 := toggleMute (toggleMute a) in
   volume a2 = Fin 1%Q /\ isMuted a2 = false /\
   audio_el a2 = Some {| v_volume := v_volume e; v_muted := false |}) /\
  (forall delta,
     let a3 := changeVolume delta (toggleMute a) in
     option_map v_muted (audio_el a3) = Some true /\
     (is_zero (volume a3) = false -> isMuted a3 = false)).
Proof.
  intros He Hm. unfold toggleMute. rewrite He, Hm. cbn.
  split; [reflexivity|]. split; [repeat split|].
  intros delta. unfold changeVolume. cbn. split; [reflexivity|].
  intros H. exact H.
Qed.

(** Playing at volume 0.5: after M and M the cell shows 1; after M and one
    step up the cell [isMuted] is false and the element is muted. *)
Lemma mute_and_volume_apart_witness :
  let a := {| volume := Fin (1 # 2); isMuted := false;
              audio_el := Some {| v_volume := Fin (1 # 2);
                                  v_muted := false |} |} in
  volume (toggleMute (toggleMute a)) = Fin 1%Q /\
  isMuted (changeVolume (Fin (1 # 10)) (toggleMute a)) = false /\
  option_map v_muted (audio_el (changeVolume (Fin (1 # 10)) (toggleMute a)))
  = Some true.
Proof.
  intros a.
  destruct (mute_and_volume_apart a
              {| v_volume := Fin (1 # 2); v_muted := false |}
              eq_refl eq_refl) as (_ & (H2 & _) & H3).
  split; [exact H2|].
  destruct (H3 (Fin (1 # 10))) as [Hm Hz].
  split; [apply Hz; reflexivity|exact Hm].
Defined.

(** ** Keyboard shortcuts *)

Ltac acted :=
  right; eexists _, _; split; [reflexivity|];
  intros Hin; cbn [In] in Hin;
  repeat (destruct Hin as [Hin|Hin]; [discriminate Hin|]); exact Hin.

(** X14. For every key event and context: while the focus is in an input
    the handler does nothing; otherwise it either makes no call at all (the
    key keeps its default action) or calls [preventDefault] first and then
    acts; Escape always acts, with exactly one call after
    [preventDefault]. *)
Theorem handleKeyDown_suppression (e : KeyboardEvent) (c : KeyContext) :
  (focus_in_input c = true -> handleKeyDown e c = []) /\
  suppressed_or_ignored (handleKeyDown e c) /\
  (focus_in_input c = false -> toLowerCase (key e) = "escape" ->
   exists a, handleKeyDown e c = [PreventDefault; a]).
Proof.
  split; [|split].
  - intros H. unfold handleKeyDown. rewrite H. reflexivity.
  - unfold handleKeyDown, suppressed_or_ignored.
    destruct (focus_in_input c); [left; reflexivity|]. cbv zeta.
    repeat match goal with
           | |- context [if (?a =? ?b)%string || (?a =? ?d)%string
                         then _ else _] =>
               destruct ((a =? b)%string || (a =? d)%string); [acted|]
           | |- context [if (?a =? ?b)%string then _ else _] =>
               destruct (a =? b)%string
           | |- context [if ctx_showSkipIntro c then _ else _] =>
               destruct (ctx_showSkipIntro c)
           | |- context [if shiftKey e then _ else _] =>
               destruct (shiftKey e)
           | |- context [if ctx_showChapterList c then _ else _] =>
               destruct (ctx_showChapterList c)
           | |- context [if ctx_showSettings c then _ else _] =>
               destruct (ctx_showSettings c)
           | |- context [if fullscreenElement c then _ else _] =>
               destruct (fullscreenElement c)
           end;
      first [left; reflexivity|acted].
  - intros Hf Hk. unfold handleKeyDown. rewrite Hf, Hk. cbn.
    destruct (ctx_showChapterList c); [eexists; reflexivity|].
    destruct (ctx_showSettings c); [eexists; reflexivity|].
    destruct (fullscreenElement c); eexists; reflexivity.
Qed.

(** Escape, typed with the caps lock on, with the settings open. *)
Lemma handleKeyDown_suppression_witness :
  exists a,
    handleKeyDown {| key := "ESCAPE"; shiftKey := false |} idle_context
    = [PreventDefault; a].
Proof.
  apply (proj2 (proj2 (handleKeyDown_suppression
                         {| key := "ESCAPE"; shiftKey := false |}
                         idle_context)));
    reflexivity.
Defined.

(** ** Skipping the intro *)

Lemma lt_irrefl x : lt x x = false.
Proof.
  destruct x as [| | |q]; try reflexivity.
  cbn [lt]. unfold Qlt_bool. apply negb_false_iff, Qle_bool_iff, Qle_refl.
Qed.

(** X15. With the element attached, [skipIntro] puts the element and the
    [currentTime] cell at the end of the intro, after which the button is
    not offered any more; without an intro it does nothing. *)
Theorem skipIntro_leaves_intro (intro : option Intro) (w : World) (v : Video) :
  videoRef (refs w) = Some v ->
  showSkipIntro intro (skipIntro intro w) = false /\
  (forall i, intro = Some i ->
             positioned_at (skipIntro intro w) (intro_end i)) /\
  (intro = None -> skipIntro intro w = w).
Proof.
  intros Hv. destruct intro as [i|].
  - assert (Hpos : positioned_at (skipIntro (Some i) w) (intro_end i)).
    { unfold skipIntro. rewrite Hv.
      apply positioned_showControlsTemp.
      apply (seek_to_positioned (intro_end i) w v Hv). }
    split; [|split].
    + unfold showSkipIntro. rewrite (proj1 Hpos), lt_irrefl.
      apply andb_false_r.
    + intros i' E. injection E as <-. exact Hpos.
    + discriminate.
  - split; [reflexivity|]. split; [discriminate|reflexivity].
Qed.

(** At 30 seconds into an intro that runs from 10 to 90. *)
Lemma skipIntro_leaves_intro_witness :
  let w := playing_at (of_Z 200) (of_Z 30) in
  showSkipIntro (Some intro_10_90) w = true /\
  showSkipIntro (Some intro_10_90) (skipIntro (Some intro_10_90) w) = false /\
  positioned_at (skipIntro (Some intro_10_90) w) (of_Z 90).
Proof.
  intros w. split; [reflexivity|].
  destruct (skipIntro_leaves_intro (Some intro_10_90) w fresh_video eq_refl)
    as (H1 & H2 & _).
  split; [exact H1|]. apply (H2 intro_10_90 eq_refl).
Defined.

(** ** Buffer ahead *)

Lemma bufferEnd_unbuffered b t : unbuffered b t -> bufferEnd b t = Fin 0%Q.
Proof.
  induction 1 as [|[s e] b Hr _ IH]; [reflexivity|].
  cbn [bufferEnd]. cbn [fst snd] in Hr. rewrite Hr. exact IH.
Qed.

Lemma bufferEnd_first pre s e post t :
  unbuffered pre t -> le s t && ge e t = true ->
  bufferEnd (pre ++ (s, e) :: post) t = e.
Proof.
  intros Hpre Hr. induction Hpre as [|[s' e'] pre Hr' _ IH].
  - cbn [app bufferEnd]. rewrite Hr. reflexivity.
  - cbn [app bufferEnd]. cbn [fst snd] in Hr'. rewrite Hr'. exact IH.
Qed.

Lemma buffered_split b t :
  unbuffered b t \/
  exists pre s e post,
    b = pre ++ (s, e) :: post /\ unbuffered pre t /\
    le s t && ge e t = true.
Proof.
  induction b as [|[s e] b IH]; [left; constructor|].
  destruct (le s t && ge e t) eqn:E.
  - right. exists [], s, e, b. split; [reflexivity|].
    split; [constructor|exact E].
  - destruct IH as [H|(pre & s' & e' & post & -> & Hpre & Hr)].
    + left. constructor; [exact E|exact H].
    + right. exists ((s, e) :: pre), s', e', post.
      split; [reflexivity|]. split; [constructor; assumption|exact Hr].
Qed.

Lemma ahead_of_range e q :
  ge e (Fin q) = true ->
  le (Fin 0%Q) (Math_max (Fin 0%Q) (sub e (Fin q))) = true /\
  same (Math_max (Fin 0%Q) (sub e (Fin q))) (sub e (Fin q)).
Proof.
  destruct e as [| | |r]; cbn; try discriminate; [split; reflexivity|].
  intros H. apply Qle_bool_iff in H.
  unfold Math_max. cbn [isNaN orb lt]. unfold Qlt_bool.
  destruct (Qle_bool (r + - q) 0) eqn:E; cbn [negb le same].
  - apply Qle_bool_iff in E. split; [reflexivity|]. lra.
  - split; [|reflexivity].
    apply Qle_bool_iff. lra.
Qed.

(** X16. At a finite playback time [t >= 0] the buffer field of the stats
    snapshot is never negative and never NaN: it is 0 when no buffered
    range holds [t], and the distance from [t] to the end of the first
    range that holds [t] otherwise. *)
Theorem bufferAhead_nonneg (buffered : list (number * number)) (q : Q) :
  (0 <= q)%Q ->
  le (Fin 0%Q) (bufferAhead buffered (Fin q)) = true /\
  (unbuffered buffered (Fin q) -> bufferAhead buffered (Fin q) = Fin 0%Q) /\
  (forall pre s e post,
     buffered = pre ++ (s, e) :: post -> unbuffered pre (Fin q) ->
     le s (Fin q) && ge e (Fin q) = true ->
     same (bufferAhead buffered (Fin q)) (sub e (Fin q))).
Proof.
  intros Hq.
  assert (Hnone : unbuffered buffered (Fin q) ->
                  bufferAhead buffered (Fin q) = Fin 0%Q).
  { intros H. unfold bufferAhead. rewrite (bufferEnd_unbuffered _ _ H).
    unfold Math_max. cbn [sub neg add isNaN orb lt]. unfold Qlt_bool.
    replace (Qle_bool (0 + - q) 0) with true; [reflexivity|].
    symmetry. apply Qle_bool_iff. lra. }
  assert (Hsome : forall pre s e post,
            buffered = pre ++ (s, e) :: post -> unbuffered pre (Fin q) ->
            le s (Fin q) && ge e (Fin q) = true ->
            le (Fin 0%Q) (bufferAhead buffered (Fin q)) = true /\
            same (bufferAhead buffered (Fin q)) (sub e (Fin q))).
  { intros pre s e post -> Hpre Hr. unfold bufferAhead.
    rewrite (bufferEnd_first pre s e post _ Hpre Hr).
    apply andb_prop in Hr. apply ahead_of_range, Hr. }
  split; [|split; [exact Hnone|]].
  - destruct (buffered_split buffered (Fin q))
      as [H|(pre & s & e & post & E & Hpre & Hr)].
    + rewrite (Hnone H). reflexivity.
    + apply (Hsome pre s e post E Hpre Hr).
  - intros pre s e post E Hpre Hr. apply (Hsome pre s e post E Hpre Hr).
Qed.

(** At 12 with the ranges 0-5 and 10-30 buffered: 18 seconds ahead. *)
Lemma bufferAhead_nonneg_witness :
  same (bufferAhead [(of_Z 0, of_Z 5); (of_Z 10, of_Z 30)] (of_Z 12))
       (of_Z 18).
Proof.
  destruct (bufferAhead_nonneg [(of_Z 0, of_Z 5); (of_Z 10, of_Z 30)]
              (inject_Z 12)) as (_ & _ & H).
  - unfold inject_Z. lra.
  - apply (H [(of_Z 0, of_Z 5)] (of_Z 10) (of_Z 30) []);
      [reflexivity|repeat constructor|reflexivity].
Defined.

(** ** The time under the pointer *)

Lemma clamp_percent x :
  isNaN x = false ->
  exists p, Math_max (Fin 0%Q) (Math_min (Fin 1%Q) x) = Fin p /\
            (0 <= p <= 1)%Q.
Proof.
  intros Hx. destruct x as [| | |r]; [discriminate Hx| | |].
  - exists 1%Q. split; [reflexivity|lra].
  - exists 0%Q. split; [reflexivity|lra].
  - unfold Math_max, Math_min. cbn [isNaN orb lt]. unfold Qlt_bool.
    destruct (Qle_bool 1 r) eqn:E1; cbn [negb].
    + cbn [isNaN orb lt]. exists 1%Q. split; [reflexivity|lra].
    + cbn [isNaN orb lt]. unfold Qlt_bool.
      destruct (Qle_bool r 0) eqn:E0; cbn [negb].
      * exists 0%Q. split; [reflexivity|lra].
      * exists r. split; [reflexivity|].
        split.
        -- destruct (Qlt_le_dec r 0) as [Hlt|Hle]; [|exact Hle].
           exfalso. apply Qlt_le_weak, Qle_bool_iff in Hlt. congruence.
        -- destruct (Qlt_le_dec 1 r) as [Hlt|Hle]; [|exact Hle].
           exfalso. apply Qlt_le_weak, Qle_bool_iff in Hlt. congruence.
Qed.

(** X17. For a known finite duration [d > 0] and a pointer position whose
    ratio [(clientX - left) / width] is not NaN, the hover time set by
    [handleSeekBarMouseMove] lies within the media: between 0 and [d],
    wherever the pointer is. *)
Theorem hover_within_media (d : Q) (clientX left width : number) :
  (0 < d)%Q ->
  isNaN (div (sub clientX left) width) = false ->
  exists q,
    handleSeekBarMouseMove (Fin d) clientX left width = Some (Fin q) /\
    (0 <= q <= d)%Q.
Proof.
  intros Hd Hr. unfold handleSeekBarMouseMove. cbn [isNaN orb is_zero].
  replace (Qeq_bool d 0) with false.
  2:{ symmetry. apply not_true_iff_false. intros H.
      apply Qeq_bool_iff in H. lra. }
  destruct (clamp_percent _ Hr) as (p & -> & Hp).
  exists (p * d)%Q. split; [reflexivity|]. nra.
Qed.

(** A pointer 50 pixels left of a bar of 400 pixels: the start of the
    media. *)
Lemma hover_within_media_witness :
  exists q,
    handleSeekBarMouseMove (Fin 100) (of_Z 50) (of_Z 100) (of_Z 400)
    = Some (Fin q) /\ (0 <= q <= 100)%Q.
Proof.
  apply (hover_within_media 100 (of_Z 50) (of_Z 100) (of_Z 400));
    [lra|reflexivity].
Defined.
